(** * m17n-orm: field projection, transport registry and the SQL transport

    A shallow embedding of the main module (create, createList, data,
    languageData, setTransport), of the SQL transport (connect, remove,
    removeLanguage, get, getOtherLanguages, save, saveWithLanguage,
    searchByField) and of the AJAX transport (setAuth and the requests it
    builds), with the properties of their specification and further
    properties read off the code. *)

From stdpp Require Import gmap strings list fin_maps.
From Stdlib Require Import ZArith Ascii Lia.

Open Scope Z_scope.

(** ** JavaScript values *)

(** The values that flow through the two modules: identifiers and limits are
    numbers, names and locale tags are strings, schema lists are arrays of
    strings and the operations of a transport are functions.  A function is
    kept by its name, which is all the registry looks at. *)
Inductive value : Type :=
  | VUndefined
  | VNull
  | VBool (b : bool)
  | VNum (n : Z)
  | VStr (s : string)
  | VArr (l : list string)
  | VFun (name : string).

(** [if (v)], [!v], [a && b], [a || b]. *)
Definition truthy (v : value) : bool :=
  match v with
  | VUndefined | VNull => false
  | VBool b => b
  | VNum n => negb (n =? 0)
  | VStr s => negb (String.eqb s "")
  | VArr _ | VFun _ => true
  end.

(** [typeof v]. *)
Definition typeof (v : value) : string :=
  match v with
  | VUndefined => "undefined"
  | VNull | VArr _ => "object"
  | VBool _ => "boolean"
  | VNum _ => "number"
  | VStr _ => "string"
  | VFun _ => "function"
  end.

(** Optional arguments: an omitted argument is [undefined]. *)
Definition optStr (s : option string) : value := from_option VStr VUndefined s.
Definition optNum (n : option Z) : value := from_option VNum VUndefined n.

(** ** Entities *)

(** The statics of an entity constructor: [taxonomyName], [fields] and the
    optional [languageFields]. *)
Record Constructor : Type := {
  taxonomyName : string;
  fields : list string;
  languageFields : option (list string)
}.

(** An instance: its constructor and the properties that a read [object[k]]
    finds on it. *)
Record Instance : Type := {
  constructor : Constructor;
  props : gmap string value
}.

(** [object[k]]: a property that is not there reads as [undefined]. *)
Definition getprop (o : Instance) (k : string) : value :=
  default VUndefined (props o !! k).

(** [object[k] = v]. *)
Definition setprop (o : Instance) (k : string) (v : value) : Instance :=
  {| constructor := constructor o; props := <[k := v]> (props o) |}.

(** ** Main module: field projection *)

(** The loop both projections run, starting from [values = {}]:
    [for (i = 0, l = fields.length; i < l; i++)
       values[fields[i]] = object[fields[i]];]
    The map holds the own properties of [values].  An assignment adds or
    overwrites the own property of that name, except for the name
    [__proto__]: on a plain object that is the accessor of the prototype,
    and assigning to it adds no own property. *)
Definition copyFields (o : Instance) (names : list string) : gmap string value :=
  foldl (fun (values : gmap string value) f =>
           if String.eqb f "__proto__" then values
           else <[f := getprop o f]> values)
        ∅ names.

(** [exports.data]: the loop over [object.constructor.fields]. *)
Definition data (o : Instance) : gmap string value :=
  copyFields o (fields (constructor o)).

(** [exports.languageData]: the loop over
    [object.constructor.languageFields], guarded by [if (fields)] (an array,
    even an empty one, passes the guard). *)
Definition languageData (o : Instance) : gmap string value :=
  match languageFields (constructor o) with
  | Some fs => copyFields o fs
  | None => ∅
  end.

(** ** Module objects *)

(** What a call [m.data(object)] or [m.languageData(object)] finds on a
    module object [m]: the function that the property holds, given by what
    it returns, or nothing that can be called ([None]), in which case the
    call throws a TypeError. *)
Record moduleObject : Type := {
  dataMember : option (Instance → gmap string value);
  languageDataMember : option (Instance → gmap string value)
}.

(** The main module assigns [exports.data] and [exports.languageData]. *)
Definition mainModule : moduleObject :=
  {| dataMember := Some data; languageDataMember := Some languageData |}.

(** The SQL transport and the AJAX transport assign their operations to
    their own [exports], and neither [data] nor [languageData]. *)
Definition sqlModule : moduleObject :=
  {| dataMember := None; languageDataMember := None |}.

Definition ajaxModule : moduleObject :=
  {| dataMember := None; languageDataMember := None |}.

(** ** Main module: transport registry *)

(** A module object as [for (key in transport)] sees it: its own enumerable
    properties in order, then the enumerable ones it inherits. *)
Record jsobject : Type := {
  own : list (string * value);
  inherited : list (string * value)
}.

Definition forin_keys (o : jsobject) : list string :=
  (own o).*1 ++ (inherited o).*1.

Definition hasOwnProperty (o : jsobject) (k : string) : bool :=
  bool_decide (k ∈ (own o).*1).

Fixpoint assoc (l : list (string * value)) (k : string) : option value :=
  match l with
  | [] => None
  | (k', v) :: l' => if String.eqb k' k then Some v else assoc l' k
  end.

(** [transport[key]]: own properties shadow inherited ones. *)
Definition member (o : jsobject) (k : string) : value :=
  match assoc (own o) k with
  | Some v => v
  | None => default VUndefined (assoc (inherited o) k)
  end.

(** [exports.setTransport]: the public surface [exports] is a map from names
    to values; the loop variable [key] is the property name, a string, and
    the guard is [transport.hasOwnProperty(key) && typeof key === 'function']. *)
Definition setTransport (exports : gmap string value) (transport : jsobject)
  : gmap string value :=
  foldl
    (fun exports key =>
       if hasOwnProperty transport key
          && String.eqb (typeof (VStr key)) "function"
       then <[key := member transport key]> exports
       else exports)
    exports (forin_keys transport).


(** The exports of the SQL transport, in the order the module assigns them;
    the module keeps its two connections in local variables, so every
    property it exports is a function. *)
Definition sqlTransport : jsobject :=
  {| own := [("connect", VFun "connect");
             ("remove", VFun "remove");
             ("removeLanguage", VFun "removeLanguage");
             ("get", VFun "get");
             ("getOtherLanguages", VFun "getOtherLanguages");
             ("save", VFun "save");
             ("searchByField", VFun "searchByField")];
     inherited := [] |}.

(** ** SQL transport: what the driver hands back *)

(** The [err] argument of a driver callback is [null] ([None]) or an Error
    object, kept here by its message; an Error object is always truthy. *)
Definition error : Type := string.

(** A row of a result set. *)
Definition row : Type := gmap string value.

(** The result packet of a write; [insertId] is 0 when the statement
    generated no identifier. *)
Record okPacket : Type := { insertId : Z }.

(** A call on a Deferred: [resolve(a)], or [reject(e)]; [reject None] is
    the call [reject()] that passes no error. *)
Inductive settle (A : Type) : Type :=
  | resolve (a : A)
  | reject (e : option error).
Arguments resolve {A} a.
Arguments reject {A} e.

(** A call [readClient.query(sql, values, callback)]; [R] is what the
    callback receives as its second argument. *)
Record readCall (R A : Type) : Type := {
  sql : string;
  values : list value;
  callback : option error → R → settle A
}.
Arguments sql {R A} _.
Arguments values {R A} _.
Arguments callback {R A} _ _ _.

(** ['...' + array]: an array is converted with [join(',')]. *)
Fixpoint join (sep : string) (l : list string) : string :=
  match l with
  | [] => ""
  | x :: l' =>
      match l' with
      | [] => x
      | _ :: _ => x +:+ sep +:+ join sep l'
      end
  end.

(** ['...' + constructor.languageFields], which may be [undefined]. *)
Definition fieldsToString (l : option (list string)) : string :=
  match l with
  | Some l => join "," l
  | None => "undefined"
  end.

(** [v === 'literal']. *)
Definition strictEqStr (v : value) (s : string) : bool :=
  match v with
  | VStr s' => String.eqb s' s
  | _ => false
  end.

(** [v > m] for a number [m]; [undefined > m] is false. *)
Definition numGt (v : value) (m : Z) : bool :=
  match v with
  | VNum n => n >? m
  | _ => false
  end.

(** ** SQL transport: get *)

(** [exports.get(constructor, id, language)]; [create] stands for
    [constructor.create].  The callback tests [!result || !result.length],
    so its second argument may be missing ([None]). *)
Definition get (create : row → Instance) (c : Constructor) (id : Z)
    (language : option string) : readCall (option (list row)) Instance :=
  let tableName := taxonomyName c in
  let query :=
    if truthy (optStr language)
    then "SELECT " +:+ join "," (fields c) +:+ ","
         +:+ fieldsToString (languageFields c) +:+ " FROM " +:+ tableName
         +:+ "_language INNER JOIN " +:+ tableName
         +:+ " USING (id) WHERE id = ? AND language = ? LIMIT 1"
    else "SELECT " +:+ join "," (fields c) +:+ " FROM " +:+ tableName
         +:+ " WHERE id = ? LIMIT 1" in
  {| sql := query;
     values := [VNum id; optStr language];
     callback := fun err result =>
       match err with
       | Some e => reject (Some e)
       | None =>
           match result with
           | None | Some [] => reject None
           | Some (r :: _) => resolve (create r)
           end
       end |}.

(** ** SQL transport: searchByField *)

Definition limitMax : Z := 1000.

(** [exports.searchByField(constructor, field, value, language, orderBy,
    orderDirection, limitFrom, limitTo)]; [constructor.createList(rows)] is
    [rows.map(constructor.create)] over the array of rows. *)
Definition searchByField (create : row → Instance) (c : Constructor)
    (field value : string) (language orderBy orderDirection : option string)
    (limitFrom limitTo : option Z) : readCall (list row) (list Instance) :=
  let tableName := taxonomyName c in
  let '(query, values) :=
    if truthy (optStr language)
    then ("SELECT " +:+ join "," (fields c) +:+ ","
          +:+ fieldsToString (languageFields c) +:+ " FROM " +:+ tableName
          +:+ "_language INNER JOIN " +:+ tableName
          +:+ " USING (id) WHERE ? = ? AND language = ?",
          [VStr field; VStr value; optStr language])
    else ("SELECT " +:+ join "," (fields c) +:+ " FROM " +:+ tableName
          +:+ " WHERE ? = ?",
          [VStr field; VStr value]) in
  let '(query, values) :=
    if truthy (optStr orderBy)
       && (strictEqStr (optStr orderDirection) "desc"
           || strictEqStr (optStr orderDirection) "asc")
    then (query +:+ " ORDER BY ? " +:+ default "" orderDirection,
          values ++ [optStr orderBy])
    else (query, values) in
  let limitTo :=
    if negb (truthy (optNum limitTo)) || numGt (optNum limitTo) limitMax
    then VNum limitMax
    else optNum limitTo in
  let query := query +:+ "LIMIT ?, ?" in
  let values :=
    values ++ [if truthy (optNum limitFrom) then optNum limitFrom else VNum 0;
               limitTo] in
  {| sql := query;
     values := values;
     callback := fun err rows =>
       match err with
       | Some e => reject (Some e)
       | None => resolve (create <$> rows)
       end |}.

(** ** SQL transport: save *)

(** The calls a save makes on the write client and on the transaction it
    opens there. *)
Inductive writeCall : Type :=
  | Query (sql : string) (payload : gmap string value)
  | StartTransaction
  | TransQuery (sql : string) (payload : gmap string value)
  | TransCommit
  | TransRollback.

(** Everything one [save] call can touch: the instance it was given (shared
    with the caller, so [object.id = ...] is seen by whoever holds it), the
    [rolledback] flag of its transaction, the calls made so far on the write
    client and the calls made so far on [saveDeferred], oldest first. *)
Record saveState : Type := {
  object : Instance;
  rolledback : bool;
  calls : list writeCall;
  saveDeferred : list (settle Instance)
}.

(** [trans.rollback()] of mysql-queues, which is not part of this
    repository: the rollback goes to the write client, and the library is
    taken to mark the transaction [rolledback], the flag [onError] reads. *)
Definition rollback (st : saveState) : saveState :=
  {| object := object st;
     rolledback := true;
     calls := calls st ++ [TransRollback];
     saveDeferred := saveDeferred st |}.

(** [saveDeferred.resolve(a)] and [saveDeferred.reject(e)]. *)
Definition settleWith (c : settle Instance) (st : saveState) : saveState :=
  {| object := object st;
     rolledback := rolledback st;
     calls := calls st;
     saveDeferred := saveDeferred st ++ [c] |}.

(** [onError] of saveWithLanguage, the callback of both queued statements:
    [if (err && !trans.rolledback) { trans.rollback(); saveDeferred.reject(err); }] *)
Definition onError (err : option error) (st : saveState) : saveState :=
  match err with
  | Some e =>
      if negb (rolledback st)
      then settleWith (reject (Some e)) (rollback st)
      else st
  | None => st
  end.

(** [if (!object.id && result.insertId) { object.id = result.insertId; }] *)
Definition updateId (result : okPacket) (st : saveState) : saveState :=
  if negb (truthy (getprop (object st) "id")) && truthy (VNum (insertId result))
  then {| object := setprop (object st) "id" (VNum (insertId result));
          rolledback := rolledback st;
          calls := calls st;
          saveDeferred := saveDeferred st |}
  else st.

(** The callback handed to [trans.commit] by saveWithLanguage. *)
Definition commitCallback (err : option error) (result : okPacket)
    (st : saveState) : saveState :=
  match err with
  | Some e => settleWith (reject (Some e)) st
  | None =>
      let st := updateId result st in
      settleWith (resolve (object st)) st
  end.

(** The callback handed to [writeClient.query] by save. *)
Definition queryCallback (err : option error) (result : okPacket)
    (st : saveState) : saveState :=
  match err with
  | Some e => settleWith (reject (Some e)) st
  | None =>
      let st := updateId result st in
      settleWith (resolve (object st)) st
  end.

(** Which callbacks a pending save has registered; [Thrown]: the call threw
    before it registered any, and returned no Deferred. *)
Inductive savePath : Type := Transactional | Single | Thrown.

Record pendingSave : Type := {
  path : savePath;
  state : saveState
}.

(** A save that threw after making [made] on the write client. *)
Definition thrown (o : Instance) (made : list writeCall) : pendingSave :=
  {| path := Thrown;
     state := {| object := o; rolledback := false; calls := made;
                 saveDeferred := [] |} |}.

(** [saveWithLanguage(object)], up to its [return saveDeferred]; [exports]
    is the module object of the SQL transport.  The arguments of
    [trans.query] are evaluated before the call: a missing [exports.data]
    throws with the transaction started and nothing queued, a missing
    [exports.languageData] with the first statement queued. *)
Definition saveWithLanguage (exports : moduleObject) (o : Instance)
  : pendingSave :=
  let c := constructor o in
  let started := [StartTransaction] in
  match dataMember exports with
  | None => thrown o started
  | Some data =>
      let queued :=
        started
        ++ [TransQuery ("INSERT INTO " +:+ taxonomyName c
                        +:+ " SET ? ON DUPLICATE KEY UPDATE") (data o)] in
      match languageDataMember exports with
      | None => thrown o queued
      | Some languageData =>
          {| path := Transactional;
             state :=
               {| object := o;
                  rolledback := false;
                  calls :=
                    queued
                    ++ [TransQuery ("INSERT INTO " +:+ taxonomyName c
                                    +:+ "_language SET ? ON DUPLICATE KEY UPDATE")
                                   (languageData o);
                        TransCommit];
                  saveDeferred := [] |} |}
      end
  end.

(** [exports.save(object)], up to its [return], called on [this]; the test
    is [object.language && object.languageFields], and the payload of the
    single query is [this.data(object)]. *)
Definition saveOn (this exports : moduleObject) (o : Instance)
  : pendingSave :=
  let c := constructor o in
  if truthy (getprop o "language") && truthy (getprop o "languageFields")
  then saveWithLanguage exports o
  else
    match dataMember this with
    | None => thrown o []
    | Some data =>
        {| path := Single;
           state :=
             {| object := o;
                rolledback := false;
                calls := [Query ("INSERT INTO " +:+ taxonomyName c
                                 +:+ " SET ? ON DUPLICATE KEY UPDATE")
                                (data o)];
                saveDeferred := [] |} |}
    end.

(** [save(object)] of the SQL transport called through the main module, so
    that [this.data] is the base projection; [exports] stays the module
    object of the transport. *)
Definition save (o : Instance) : pendingSave :=
  saveOn mainModule sqlModule o.

(** What the driver does next: it calls back a queued statement of the
    transaction ([onError]), or it calls back the commit, respectively the
    single query, with the write's result. *)
Inductive event : Type :=
  | StepDone (err : option error)
  | Done (err : option error) (result : okPacket).

Definition deliver (p : pendingSave) (ev : event) : pendingSave :=
  match path p, ev with
  | Transactional, StepDone err =>
      {| path := Transactional; state := onError err (state p) |}
  | Transactional, Done err result =>
      {| path := Transactional; state := commitCallback err result (state p) |}
  | Single, Done err result =>
      {| path := Single; state := queryCallback err result (state p) |}
  | Single, StepDone _ => p
  | Thrown, _ => p
  end.

Definition run (p : pendingSave) (evs : list event) : pendingSave :=
  foldl deliver p evs.

(** The first error among the results of the queued statements. *)
Fixpoint firstError (errs : list (option error)) : option error :=
  match errs with
  | [] => None
  | Some e :: _ => Some e
  | None :: errs' => firstError errs'
  end.

(** An entity type with translatable fields, declared the way [data],
    [languageData] and [get] read it (statics of the constructor), and an
    instance of it in English that was never saved. *)
Definition Article : Constructor :=
  {| taxonomyName := "articles";
     fields := ["title"; "authorId"];
     languageFields := Some ["body"] |}.

Definition article_en : Instance :=
  {| constructor := Article;
     props := {[ "title" := VStr "X"; "authorId" := VNum 7;
                 "language" := VStr "en"; "body" := VStr "hello" ]} |}.

(** The article once it is stored under the identifier 5, and the article
    carrying a [languageFields] property of its own. *)
Definition article_saved : Instance := setprop article_en "id" (VNum 5).

Definition article_own : Instance :=
  setprop article_en "languageFields" (VArr ["body"]).

(** Modelled from the spec: the store's side of an upsert, which the
    repository leaves to the database ("Upserts are insert-or-update-on-
    conflict against the identifier"): a payload that carries the
    identifier of a stored row updates that row, any other payload inserts
    a new row. *)
Inductive upsertEffect : Type :=
  | Updates (id : Z)
  | Inserts.

Definition upsertOn (stored : gset Z) (payload : gmap string value)
  : upsertEffect :=
  match payload !! "id" with
  | Some (VNum n) => if bool_decide (n ∈ stored) then Updates n else Inserts
  | _ => Inserts
  end.

(** A [create] for articles that keeps the columns of the row as the
    properties of the instance. *)
Definition createArticle (r : row) : Instance :=
  {| constructor := Article; props := r |}.

(** ** Reading a built statement *)

Fixpoint last_char (s : string) : option ascii :=
  match s with
  | EmptyString => None
  | String a s' =>
      match last_char s' with
      | Some b => Some b
      | None => Some a
      end
  end.

(** [s] ends in [suffix]. *)
Definition ends_with (s suffix : string) : Prop :=
  ∃ pre, s = pre +:+ suffix.

(** How often the transaction of a save was rolled back. *)
Definition isRollback (c : writeCall) : bool :=
  match c with
  | TransRollback => true
  | _ => false
  end.

Definition rollbacks (st : saveState) : nat :=
  length (List.filter isRollback (calls st)).

(** The invariant of a pending save: the [rolledback] flag of its
    transaction counts the rollbacks. *)
Definition flag_counts (st : saveState) : Prop :=
  rollbacks st = if rolledback st then 1%nat else 0%nat.

(** ** Main module: create *)

(** [object[k] = v] on the own properties of an object: a property that is
    there is overwritten in place, a new one is added last. *)
Fixpoint assign (l : list (string * value)) (k : string) (v : value)
  : list (string * value) :=
  match l with
  | [] => [(k, v)]
  | (k', v') :: l' =>
      if String.eqb k' k then (k', v) :: l' else (k', v') :: assign l' k v
  end.

Definition setOwn (o : jsobject) (k : string) (v : value) : jsobject :=
  {| own := assign (own o) k v; inherited := inherited o |}.

(** How a call ends: it returns, it throws a TypeError, or it runs a
    function of the caller's that is not modelled here. *)
Inductive outcome (A : Type) : Type :=
  | Returns (a : A)
  | Throws
  | NotModelled.
Arguments Returns {A} a.
Arguments Throws {A}.
Arguments NotModelled {A}.

(** What the lookup [object.hasOwnProperty] finds before it reaches
    [Object.prototype]: a property of that name among the listed ones, or
    else [hidden], a property of that name that the prototype chain defines
    without making it enumerable (a method of a class body), if there is
    one.  The built-in of [Object.prototype] itself is not enumerable, so it
    is never listed. *)
Definition guardValue (hidden : option value) (o : jsobject) : option value :=
  match assoc (own o ++ inherited o) "hasOwnProperty" with
  | Some v => Some v
  | None => hidden
  end.

(** [object.hasOwnProperty(key)], the call going through the object: the
    built-in when nothing shadows it or when what shadows it is the
    function of that name; a value that is no function cannot be called. *)
Definition guardOf (hidden : option value) (o : jsobject)
  : outcome (string → bool) :=
  match guardValue hidden o with
  | None => Returns (hasOwnProperty o)
  | Some (VFun name) =>
      if String.eqb name "hasOwnProperty"
      then Returns (hasOwnProperty o)
      else NotModelled
  | Some _ => Throws
  end.

(** Nothing shadows the built-in: [object.hasOwnProperty] is the one of
    [Object.prototype]. *)
Definition builtin_guard (hidden : option value) (o : jsobject) : Prop :=
  guardValue hidden o = None.

(** The keys [for (key in data)] visits: each name once, own properties
    first. *)
Definition forin_once (o : jsobject) : list string :=
  (own o).*1
  ++ List.filter (fun k => negb (hasOwnProperty o k)) (inherited o).*1.

Module Main.

(** The loop of [create]:
    [for (key in data) if (object.hasOwnProperty(key)) object[key] = data[key];] *)
Fixpoint createLoop (hidden : option value) (object data : jsobject)
    (keys : list string) : outcome jsobject :=
  match keys with
  | [] => Returns object
  | key :: keys' =>
      match guardOf hidden object with
      | Returns guard =>
          if guard key
          then createLoop hidden (setOwn object key (member data key)) data
                 keys'
          else createLoop hidden object data keys'
      | Throws => Throws
      | NotModelled => NotModelled
      end
  end.

(** [exports.create(Constructor, data)]; [object] is what
    [new Constructor()] built, its own properties the plain data properties
    that the constructor's assignments make, and [hidden] what its
    prototype chain holds under the name [hasOwnProperty] out of sight of
    [for ... in]. *)
Definition create (hidden : option value) (object data : jsobject)
  : outcome jsobject :=
  createLoop hidden object data (forin_once data).

(** [exports.createList(Constructor, dataList)] is
    [dataList.map(Constructor.create)]; [create] stands for
    [Constructor.create]. *)
Definition createList {A B : Type} (create : A → B) (dataList : list A)
  : list B :=
  create <$> dataList.

End Main.

(** An object of the main module read as an entity instance of type [c]:
    [object[k]] finds own properties before inherited ones. *)
Definition toInstance (c : Constructor) (o : jsobject) : Instance :=
  {| constructor := c;
     props := list_to_map (own o ++ inherited o) |}.

(** ** SQL transport: connect *)

(** The calls [connectWrite] and [connectRead] make on the driver. *)
Inductive driverCall : Type :=
  | CreateWriteConnection (options : gmap string value)
  | SetUpQueues
  | ConnectWrite
  | CreateReadConnection (options : gmap string value)
  | ConnectRead.

(** The closure of [exports.connect]: the counter [connected] and the calls
    made so far on [connectDeferred], oldest first. *)
Record connectState : Type := {
  connected : Z;
  connectDeferred : list (settle unit)
}.

(** [check], the callback handed to both connections:
    [if (err) return connectDeferred.reject(err);
     if (2 === ++connected) connectDeferred.resolve();] *)
Definition check (err : option error) (st : connectState) : connectState :=
  match err with
  | Some e =>
      {| connected := connected st;
         connectDeferred := connectDeferred st ++ [reject (Some e)] |}
  | None =>
      let connected := connected st + 1 in
      if 2 =? connected
      then {| connected := connected;
              connectDeferred := connectDeferred st ++ [resolve ()] |}
      else {| connected := connected;
              connectDeferred := connectDeferred st |}
  end.

(** [exports.connect(writeOptions, readOptions)], up to its [return]: the
    calls on the driver and the state [check] starts from. *)
Definition connect (writeOptions readOptions : gmap string value)
  : list driverCall * connectState :=
  ([CreateWriteConnection writeOptions; SetUpQueues; ConnectWrite;
    CreateReadConnection readOptions; ConnectRead],
   {| connected := 0; connectDeferred := [] |}).

(** The driver calls [check] back with these results, in this order. *)
Definition checks (rs : list (option error)) (st : connectState)
  : connectState :=
  foldl (fun st r => check r st) st rs.

Definition isResolve {A : Type} (c : settle A) : bool :=
  match c with
  | resolve _ => true
  | reject _ => false
  end.

(** The error a call on a Deferred rejects with. *)
Definition rejectedWith {A : Type} (c : settle A) : option error :=
  match c with
  | resolve _ => None
  | reject e => e
  end.

(** The errors among the results of callbacks, and how many succeeded. *)
Definition errorsOf (rs : list (option error)) : list error :=
  omap id rs.

Definition successes (rs : list (option error)) : nat :=
  length (List.filter (fun r => negb (bool_decide (is_Some r))) rs).

(** ** SQL transport: remove, removeLanguage *)

(** A call [writeClient.query(sql, values, callback)] whose callback looks
    at the error only. *)
Record writeQuery : Type := {
  wsql : string;
  wvalues : list value;
  wcallback : option error → settle unit
}.

(** [exports.remove(object)]. *)
Definition remove (o : Instance) : writeQuery :=
  let c := constructor o in
  {| wsql := "DELETE FROM " +:+ taxonomyName c +:+ " WHERE id = ? LIMIT 1";
     wvalues := [getprop o "id"];
     wcallback := fun err =>
       match err with
       | Some e => reject (Some e)
       | None => resolve ()
       end |}.

(** [exports.removeLanguage(object)]. *)
Definition removeLanguage (o : Instance) : writeQuery :=
  let c := constructor o in
  {| wsql := "DELETE FROM " +:+ taxonomyName c
             +:+ "_language WHERE id = ? AND language = ? LIMIT 1";
     wvalues := [getprop o "id"; getprop o "language"];
     wcallback := fun err =>
       match err with
       | Some e => reject (Some e)
       | None => resolve ()
       end |}.

(** ** SQL transport: getOtherLanguages *)

(** [array.indexOf(v)]: the first index whose element is [=== v], or -1. *)
Fixpoint indexOfFrom (l : list string) (v : value) (i : Z) : Z :=
  match l with
  | [] => -1
  | x :: l' => if strictEqStr v x then i else indexOfFrom l' v (i + 1)
  end.

Definition indexOf (l : list string) (v : value) : Z := indexOfFrom l v 0.

(** [exports.getOtherLanguages(object, nameField)].  Reading [indexOf] off
    a [languageFields] that is [undefined] throws, which is [None] here.
    The callback resolves without a value ([resolve None]) when there is no
    row. *)
Definition getOtherLanguages (o : Instance) (nameField : option string)
  : option (readCall (option (list row)) (option (list row))) :=
  let c := constructor o in
  match languageFields c with
  | None => None
  | Some languageFields =>
      let query := "SELECT language" in
      let query :=
        if negb (indexOf languageFields (optStr nameField) =? -1)
        then query +:+ ", " +:+ default "" nameField
        else query in
      let query := query +:+ " FROM " +:+ taxonomyName c
                   +:+ "_language WHERE id = ? AND language != ?" in
      Some {| sql := query;
              values := [getprop o "id"; getprop o "language"];
              callback := fun err result =>
                match err with
                | Some e => reject (Some e)
                | None =>
                    match result with
                    | None | Some [] => resolve None
                    | Some rows => resolve (Some rows)
                    end
                end |}
  end.

(** ** AJAX transport *)

Module Ajax.

Inductive method : Type := GET | DEL | PUT | POST.

(** A request handed to responsive-ajax: [ajax.get(url, params, headers)],
    [ajax.del], [ajax.putJSON], [ajax.postJSON]; [params] is [null]
    ([None]) or an object.  What [.done] later makes of the response is not
    part of the request. *)
Record request : Type := {
  meth : method;
  url : string;
  params : option (gmap string value);
  hdrs : option (gmap string value)
}.

(** [exports.setAuth(auth)] on the module variable [headers], which is
    [undefined] ([None]) until the first truthy [auth]. *)
Definition setAuth (auth : value) (headers : option (gmap string value))
  : option (gmap string value) :=
  if negb (truthy auth)
  then match headers with
       | Some h =>
           if truthy (default VUndefined (h !! "Authorization"))
           then Some (delete "Authorization" h)
           else headers
       | None => headers
       end
  else Some (<["Authorization" := auth]> (default ∅ headers)).

(** [headers.Authorization], when there is one. *)
Definition authorization (headers : option (gmap string value))
  : option value :=
  headers ≫= (fun h => h !! "Authorization").

Section Requests.

(** ['/' + v]: the conversion to a string that concatenation applies. *)
Context (str : value → string).
Context (headers : option (gmap string value)).

(** [exports.get(constructor, id, language)]. *)
Definition get (c : Constructor) (id language : value) : request :=
  let path := "/" +:+ taxonomyName c +:+ "/" +:+ str id in
  let path :=
    if truthy language then path +:+ "/" +:+ str language else path in
  {| meth := GET; url := path; params := None; hdrs := headers |}.

(** [exports.remove(object)]. *)
Definition remove (o : Instance) : request :=
  {| meth := DEL;
     url := "/" +:+ taxonomyName (constructor o) +:+ "/"
            +:+ str (getprop o "id");
     params := None;
     hdrs := headers |}.

(** [exports.removeLanguage(object)]. *)
Definition removeLanguage (o : Instance) : request :=
  {| meth := DEL;
     url := "/" +:+ taxonomyName (constructor o) +:+ "/"
            +:+ str (getprop o "id") +:+ "/" +:+ str (getprop o "language");
     params := None;
     hdrs := headers |}.

(** [exports.save(object)]; [exports] is the module object of the AJAX
    transport.  The payload [exports.data(object)] is an argument of the
    request: when [exports.data] cannot be called the save throws
    ([None]) and no request is made. *)
Definition save (exports : moduleObject) (o : Instance) : option request :=
  let c := constructor o in
  if truthy (getprop o "id")
  then
    let path := "/" +:+ taxonomyName c +:+ "/" +:+ str (getprop o "id") in
    let path :=
      if truthy (getprop o "language")
      then path +:+ "/" +:+ str (getprop o "language")
      else path in
    match dataMember exports with
    | Some data =>
        Some {| meth := PUT; url := path; params := Some (data o);
                hdrs := headers |}
    | None => None
    end
  else
    match dataMember exports with
    | Some data =>
        Some {| meth := POST; url := "/" +:+ taxonomyName c;
                params := Some (data o); hdrs := headers |}
    | None => None
    end.

(** [exports.searchByField(constructor, field, value, language, orderBy,
    orderDirection, limitFrom, limitTo)]. *)
Definition searchByField (c : Constructor)
    (field value language orderBy orderDirection limitFrom limitTo : value)
  : request :=
  {| meth := GET;
     url := "/" +:+ taxonomyName c;
     params := Some (<["limitTo" := limitTo]>
                    (<["limitFrom" := limitFrom]>
                    (<["orderDirection" := orderDirection]>
                    (<["orderBy" := orderBy]>
                    (<["searchLanguage" := language]>
                    (<["searchValue" := value]>
                    (<["searchField" := field]> ∅)))))));
     hdrs := headers |}.

(** [exports.getOtherLanguages(object, nameField)]. *)
Definition getOtherLanguages (o : Instance) (nameField : value) : request :=
  {| meth := GET;
     url := "/" +:+ taxonomyName (constructor o) +:+ "/"
            +:+ str (getprop o "id") +:+ "/" +:+ str (getprop o "language")
            +:+ "/others";
     params := Some {[ "nameField" := nameField ]};
     hdrs := headers |}.

End Requests.

End Ajax.

(** ** Counting placeholders *)

(** How often the character [a] occurs in [s]. *)
Fixpoint count_char (a : ascii) (s : string) : nat :=
  match s with
  | EmptyString => 0%nat
  | String b s' =>
      ((if Ascii.eqb a b then 1 else 0) + count_char a s')%nat
  end.

(** The [?] placeholders of a statement. *)
Definition placeholders (s : string) : nat := count_char "?" s.

(** The schema of a type has no [?] in its names. *)
Definition plain_names (c : Constructor) : Prop :=
  placeholders (taxonomyName c) = 0%nat
  ∧ placeholders (join "," (fields c)) = 0%nat
  ∧ placeholders (fieldsToString (languageFields c)) = 0%nat.

(** [o'] is [o], or [o] with a generated identifier put on it. *)
Definition only_id_changed (o o' : Instance) : Prop :=
  constructor o' = constructor o
  ∧ (props o' = props o
     ∨ ∃ n, n ≠ 0 ∧ truthy (getprop o "id") = false
            ∧ props o' = <["id" := VNum n]> (props o)).

(** The header object holds nothing but a truthy [Authorization]. *)
Definition auth_only (headers : option (gmap string value)) : Prop :=
  match headers with
  | None => True
  | Some h => h = ∅ ∨ ∃ a, truthy a = true ∧ h = {[ "Authorization" := a ]}
  end.

(** [s] starts with [prefix]. *)
Definition starts_with (s prefix : string) : Prop :=
  ∃ rest, s = prefix +:+ rest.

(** What [new Article()] builds, a row of the articles relation with a
    column the type does not know, and a type without translatable fields. *)
Definition newArticle : jsobject :=
  {| own := [("id", VUndefined); ("language", VUndefined);
             ("title", VUndefined); ("authorId", VUndefined);
             ("body", VUndefined)];
     inherited := [] |}.

Definition articleRow : jsobject :=
  {| own := [("title", VStr "X"); ("authorId", VNum 7); ("views", VNum 3)];
     inherited := [] |}.

Definition Tag : Constructor :=
  {| taxonomyName := "tags"; fields := ["name"]; languageFields := None |}.

(** * Properties *)

(** ** Field projection *)

Lemma copyFields_lookup (o : Instance) (names : list string) (k : string) :
  copyFields o names !! k
  = if bool_decide (k ∈ names) && negb (String.eqb k "__proto__")
    then Some (getprop o k)
    else None.
Proof.
  unfold copyFields.
  induction names as [|f names IH] using rev_ind.
  - simpl. by rewrite lookup_empty.
  - rewrite foldl_snoc.
    assert (Hmem : ∀ b, k ≠ f → bool_decide (k ∈ names ++ [f]) && b
                              = bool_decide (k ∈ names) && b).
    { intros b Hne. f_equal. apply bool_decide_ext.
      rewrite elem_of_app, list_elem_of_singleton.
      split; [intros [?|?]; [done | congruence] | by left]. }
    destruct (String.eqb_spec f "__proto__") as [->|Hproto].
    + rewrite IH. destruct (String.eqb_spec k "__proto__") as [Hk|Hk].
      * by rewrite !andb_false_r.
      * by rewrite Hmem.
    + destruct (decide (f = k)) as [->|Hne].
      * rewrite lookup_insert_eq, bool_decide_eq_true_2.
        -- by apply String.eqb_neq in Hproto as ->.
        -- apply elem_of_app. right. by apply list_elem_of_singleton.
      * rewrite lookup_insert_ne, IH by done. by rewrite Hmem.
Qed.

(** The own keys of a projection are the declared names, less [__proto__]. *)
Lemma copyFields_dom (o : Instance) (names : list string) :
  dom (copyFields o names)
  = list_to_set (C := gset string) names ∖ {["__proto__"]}.
Proof.
  apply set_eq. intros k.
  rewrite elem_of_dom, copyFields_lookup, elem_of_difference,
    elem_of_list_to_set, elem_of_singleton.
  destruct (String.eqb_spec k "__proto__") as [->|Hk];
    case_bool_decide; simpl; split;
    try (intros [? ?]; done); try (intros [? ?]; congruence);
    try done; eauto.
Qed.

Lemma copyFields_dom_plain (o : Instance) (names : list string) :
  "__proto__" ∉ names →
  dom (copyFields o names) = list_to_set (C := gset string) names.
Proof.
  intros H. rewrite copyFields_dom. apply set_eq. intros k.
  rewrite elem_of_difference, elem_of_list_to_set, elem_of_singleton.
  split; [by intros [? _] | intros Hk; split; [done |]].
  intros ->. done.
Qed.

(** C8: for a type that declares no name [__proto__], the base projection
    has exactly the declared [fields] as keys and the language projection
    exactly the declared [languageFields] (no key at all when the type
    declares none); each key carries the instance's value, and a name
    outside the declared ones is never emitted, whatever other properties
    the instance has. *)
Theorem C8_projection_keys (o : Instance) :
  "__proto__" ∉ fields (constructor o) →
  "__proto__" ∉ default [] (languageFields (constructor o)) →
  dom (data o) = list_to_set (C := gset string) (fields (constructor o))
  ∧ dom (languageData o)
    = list_to_set (C := gset string)
        (default [] (languageFields (constructor o)))
  ∧ (languageFields (constructor o) = None → languageData o = ∅)
  ∧ (∀ k, k ∈ fields (constructor o) → data o !! k = Some (getprop o k))
  ∧ (∀ k, k ∉ fields (constructor o) → data o !! k = None)
  ∧ (∀ k, k ∈ default [] (languageFields (constructor o)) →
          languageData o !! k = Some (getprop o k))
  ∧ (∀ k, k ∉ default [] (languageFields (constructor o)) →
          languageData o !! k = None).
Proof.
  intros Hf Hl.
  assert (Hin : ∀ names k, "__proto__" ∉ names → k ∈ names →
                 copyFields o names !! k = Some (getprop o k)).
  { intros names k Hp Hk. rewrite copyFields_lookup.
    rewrite bool_decide_eq_true_2 by done.
    destruct (String.eqb_spec k "__proto__") as [->|]; done. }
  assert (Hout : ∀ names k, k ∉ names → copyFields o names !! k = None).
  { intros names k Hk. rewrite copyFields_lookup.
    by rewrite bool_decide_eq_false_2. }
  unfold data, languageData in *.
  destruct (languageFields (constructor o)) as [fs|]; simpl in *.
  - split; [by apply copyFields_dom_plain |].
    split; [by apply copyFields_dom_plain |].
    split; [discriminate |]. repeat split; intros; auto.
  - split; [by apply copyFields_dom_plain |].
    split; [apply dom_empty_L |]. split; [done |].
    repeat split; intros; auto.
    by apply elem_of_nil in H.
Qed.

(** The article: [title] is declared and projected, [language] is a
    property of the instance that the base projection leaves out. *)
Lemma C8_projection_keys_witness :
  ("__proto__" ∉ fields (constructor article_en))
  ∧ ("__proto__" ∉ default [] (languageFields (constructor article_en)))
  ∧ "title" ∈ fields (constructor article_en)
  ∧ data article_en !! "title" = Some (VStr "X")
  ∧ ("language" ∉ fields (constructor article_en))
  ∧ data article_en !! "language" = None.
Proof.
  assert (Hf : "__proto__" ∉ fields (constructor article_en)).
  { simpl. rewrite !not_elem_of_cons. repeat split; try discriminate.
    apply not_elem_of_nil. }
  assert (Hl : "__proto__"
               ∉ default [] (languageFields (constructor article_en))).
  { simpl. rewrite !not_elem_of_cons. repeat split; try discriminate.
    apply not_elem_of_nil. }
  assert (Hin : "title" ∈ fields (constructor article_en)).
  { simpl. apply list_elem_of_here. }
  assert (Hout : "language" ∉ fields (constructor article_en)).
  { simpl. rewrite !not_elem_of_cons. repeat split; try discriminate.
    apply not_elem_of_nil. }
  destruct (C8_projection_keys article_en Hf Hl)
    as (_ & _ & _ & Hyes & Hno & _).
  split; [exact Hf |]. split; [exact Hl |].
  split; [exact Hin |]. split; [exact (Hyes _ Hin) |].
  split; [exact Hout | exact (Hno _ Hout)].
Defined.

(** ** Transport registry *)

(** The guard of the copy tests [typeof key], the type of a property name,
    which is "string" for every key, so no pass of the loop assigns. *)
Lemma setTransport_unchanged (exports : gmap string value) (transport : jsobject) :
  setTransport exports transport = exports.
Proof.
  unfold setTransport.
  induction (forin_keys transport) as [|key keys IH] using rev_ind;
    [reflexivity |].
  rewrite foldl_snoc, IH. simpl. by rewrite andb_false_r.
Qed.

(** C4: setTransport returns the public surface exactly as it found it,
    whatever transport it is given.  For the SQL transport: each of get,
    save, remove, removeLanguage, searchByField and getOtherLanguages is an
    own, function-valued property of the transport, and none of them is on
    the surface after the call. *)
Theorem C4_setTransport_copies_nothing :
  (∀ exports transport, setTransport exports transport = exports)
  ∧ Forall (fun k => hasOwnProperty sqlTransport k = true
                     ∧ typeof (member sqlTransport k) = "function"
                     ∧ setTransport ∅ sqlTransport !! k = None)
      ["get"; "save"; "remove"; "removeLanguage"; "searchByField";
       "getOtherLanguages"].
Proof.
  split; [apply setTransport_unchanged |].
  repeat apply Forall_cons_2; [.. | apply Forall_nil_2].
  all: rewrite setTransport_unchanged; by vm_compute.
Qed.

(** ** Strings *)

Lemma append_cons (a : ascii) (s t : string) :
  String a s +:+ t = String a (s +:+ t).
Proof. reflexivity. Qed.

Lemma append_assoc (s t u : string) : (s +:+ t) +:+ u = s +:+ t +:+ u.
Proof.
  induction s as [|a s IH]; [reflexivity |].
  by rewrite !append_cons, IH.
Qed.

Lemma last_char_append (s t : string) :
  last_char (s +:+ t) = match last_char t with
                        | Some b => Some b
                        | None => last_char s
                        end.
Proof.
  induction s as [|a s IH].
  - change ("" +:+ t) with t. by destruct (last_char t).
  - rewrite append_cons. simpl. rewrite IH.
    by destruct (last_char t), (last_char s).
Qed.

Lemma limitFrom_value (limitFrom : option Z) :
  (if truthy (optNum limitFrom) then optNum limitFrom else VNum 0)
  = VNum (default 0 limitFrom).
Proof.
  destruct limitFrom as [n|]; [| reflexivity].
  simpl. by destruct (Z.eqb_spec n 0) as [->|].
Qed.

Lemma limitTo_value (limitTo : option Z) :
  (if negb (truthy (optNum limitTo)) || numGt (optNum limitTo) limitMax
   then VNum limitMax else optNum limitTo)
  = VNum match limitTo with
         | None => 1000
         | Some n => if (n =? 0) || (1000 <? n) then 1000 else n
         end.
Proof.
  destruct limitTo as [n|]; [| reflexivity].
  unfold limitMax. simpl. rewrite Z.gtb_ltb, negb_involutive.
  by destruct (n =? 0), (1000 <? n).
Qed.

(** The test that guards the ordering clause holds exactly when [orderBy] is
    a non-empty string and [orderDirection] is "asc" or "desc". *)
Lemma ordering_guard (orderBy orderDirection : option string) :
  truthy (optStr orderBy)
  && (strictEqStr (optStr orderDirection) "desc"
      || strictEqStr (optStr orderDirection) "asc") = true
  ↔ (∃ ob, orderBy = Some ob ∧ ob ≠ "")
    ∧ (orderDirection = Some "asc" ∨ orderDirection = Some "desc").
Proof.
  rewrite andb_true_iff, orb_true_iff. split.
  - intros [Hob Hdir]. split.
    + destruct orderBy as [ob|]; [| discriminate]. exists ob. split; [done |].
      simpl in Hob. intros ->. discriminate.
    + destruct orderDirection as [d|]; simpl in Hdir;
        [| destruct Hdir; discriminate].
      destruct Hdir as [H|H]; apply String.eqb_eq in H; subst; auto.
  - intros [(ob & -> & Hne) Hdir]. split.
    + simpl. apply negb_true_iff, String.eqb_neq, Hne.
    + destruct Hdir as [-> | ->]; simpl; auto.
Qed.

Lemma ends_with_append (s t u : string) :
  ends_with t u → ends_with (s +:+ t) u.
Proof. intros [pre ->]. exists (s +:+ pre). by rewrite append_assoc. Qed.

Ltac search_cases language orderBy orderDirection :=
  unfold searchByField;
  destruct (truthy (optStr language));
  destruct (truthy (optStr orderBy)
            && (strictEqStr (optStr orderDirection) "desc"
                || strictEqStr (optStr orderDirection) "asc")) eqn:?;
  cbn [sql values callback].

Section Search.
Context (create : row → Instance) (c : Constructor) (field value : string).
Context (language orderBy orderDirection : option string).

(** C3: the bound values of a search end with the offset, which is
    [limitFrom] or 0 when it is absent, and the limit, which is never above
    1000: it is 1000 when [limitTo] is absent, zero or above 1000, and
    [limitTo] otherwise.  Asking for 5000, or for nothing, builds the same
    call as asking for 1000. *)
Theorem C3_limit_clamped (limitFrom limitTo : option Z) :
  let q := searchByField create c field value language orderBy orderDirection in
  (∃ pre to,
      values (q limitFrom limitTo)
      = pre ++ [VNum (default 0 limitFrom); VNum to]
      ∧ to ≤ 1000
      ∧ to = match limitTo with
             | None => 1000
             | Some n => if (n =? 0) || (1000 <? n) then 1000 else n
             end)
  ∧ q limitFrom (Some 5000) = q limitFrom (Some 1000)
  ∧ q limitFrom None = q limitFrom (Some 1000).
Proof.
  intros q. split; [| split; reflexivity].
  subst q. search_cases language orderBy orderDirection.
  all: rewrite limitFrom_value, limitTo_value.
  all: eexists; eexists; split; [reflexivity |]; split; [| reflexivity].
  all: destruct limitTo as [n|]; [| done].
  all: destruct (Z.eqb_spec n 0), (Z.ltb_spec 1000 n); simpl; lia.
Qed.

(** C10: a search with [limitTo = 0] builds the same call as one with
    [limitTo = 1000] and as one without [limitTo]; the limit it binds is
    1000. *)
Theorem C10_zero_limit (limitFrom : option Z) :
  let q := searchByField create c field value language orderBy orderDirection in
  q limitFrom (Some 0) = q limitFrom (Some 1000)
  ∧ q limitFrom (Some 0) = q limitFrom None
  ∧ ∃ pre, values (q limitFrom (Some 0))
           = pre ++ [VNum (default 0 limitFrom); VNum 1000].
Proof.
  intros q. split; [reflexivity |]. split; [reflexivity |].
  subst q. search_cases language orderBy orderDirection.
  all: rewrite limitFrom_value; eexists; reflexivity.
Qed.

(** C9: the statement of a search is some text followed directly by
    "LIMIT ?, ?", and the character before that LIMIT is not a space.
    Without ordering the statement ends in " = ?LIMIT ?, ?", and without
    ordering and language in "? = ?LIMIT ?, ?". *)
Theorem C9_limit_not_spaced (limitFrom limitTo : option Z) :
  (∃ pre a,
      sql (searchByField create c field value language orderBy orderDirection
             limitFrom limitTo) = pre +:+ "LIMIT ?, ?"
      ∧ last_char pre = Some a ∧ a ≠ " "%char)
  ∧ ends_with
      (sql (searchByField create c field value language orderBy None
              limitFrom limitTo)) " = ?LIMIT ?, ?"
  ∧ ends_with
      (sql (searchByField create c field value None orderBy None
              limitFrom limitTo)) "? = ?LIMIT ?, ?".
Proof.
  split; [| split].
  - search_cases language orderBy orderDirection.
    all: eexists; eexists; split; [reflexivity |].
    all: rewrite ?last_char_append.
    1,3: apply ordering_guard in Heqb as [_ [-> | ->]].
    all: simpl; split; [reflexivity | discriminate].
  - unfold searchByField. rewrite orb_false_r, andb_false_r.
    destruct (truthy (optStr language)); cbn [sql]; rewrite !append_assoc.
    + do 8 apply ends_with_append.
      by exists " USING (id) WHERE ? = ? AND language".
    + do 4 apply ends_with_append. by exists " WHERE ?".
  - unfold searchByField. rewrite orb_false_r, andb_false_r.
    cbn [sql optStr from_option truthy].
    rewrite !append_assoc. do 4 apply ends_with_append.
    by exists " WHERE ".
Qed.

(** C5: compare a search with the same search without [orderBy] and
    [orderDirection].  Its statement is the other one with an
    " ORDER BY ? <direction>" clause put before the LIMIT exactly when
    [orderBy] is given (a non-empty string) and [orderDirection] is "asc" or
    "desc"; in that case the value of [orderBy] is bound just before the two
    limit values, and in every other case the call is the same as the one
    without [orderBy] and [orderDirection]. *)
Theorem C5_ordering_guard (limitFrom limitTo : option Z) :
  let call := searchByField create c field value language orderBy
                orderDirection limitFrom limitTo in
  let plain := searchByField create c field value language None None
                 limitFrom limitTo in
  let valid := (∃ ob, orderBy = Some ob ∧ ob ≠ "")
               ∧ (orderDirection = Some "asc" ∨ orderDirection = Some "desc") in
  ((∃ pre d, sql plain = pre +:+ "LIMIT ?, ?"
             ∧ sql call = pre +:+ " ORDER BY ? " +:+ d +:+ "LIMIT ?, ?")
   ↔ valid)
  ∧ (valid →
     ∃ ob d pre vpre from to,
       orderBy = Some ob ∧ orderDirection = Some d
       ∧ sql plain = pre +:+ "LIMIT ?, ?"
       ∧ sql call = pre +:+ " ORDER BY ? " +:+ d +:+ "LIMIT ?, ?"
       ∧ values plain = vpre ++ [from; to]
       ∧ values call = vpre ++ [VStr ob; from; to])
  ∧ (¬ valid → call = plain).
Proof.
  intros call plain valid.
  assert (Hyes : valid →
     ∃ ob d pre vpre from to,
       orderBy = Some ob ∧ orderDirection = Some d
       ∧ sql plain = pre +:+ "LIMIT ?, ?"
       ∧ sql call = pre +:+ " ORDER BY ? " +:+ d +:+ "LIMIT ?, ?"
       ∧ values plain = vpre ++ [from; to]
       ∧ values call = vpre ++ [VStr ob; from; to]).
  { intros Hv. pose proof Hv as [(ob & Hob & Hne) Hd].
    assert (∃ d, orderDirection = Some d) as [d Hdir]
      by (destruct Hd; eauto).
    apply ordering_guard in Hv.
    exists ob, d. subst call plain. unfold searchByField. rewrite Hv.
    subst orderBy orderDirection.
    destruct (truthy (optStr language)); cbn [sql values optStr from_option truthy andb default].
    all: do 4 eexists.
    all: repeat split; try reflexivity.
    all: try (rewrite !append_assoc; reflexivity).
    all: by rewrite <- app_assoc. }
  assert (Hno : ¬ valid → call = plain).
  { intros Hn. subst call plain. unfold searchByField.
    destruct (truthy (optStr orderBy)
              && (strictEqStr (optStr orderDirection) "desc"
                  || strictEqStr (optStr orderDirection) "asc")) eqn:E.
    - apply ordering_guard in E. contradiction.
    - reflexivity. }
  split; [| by split].
  split.
  - intros (pre & d & Hp & Hc).
    destruct (truthy (optStr orderBy)
              && (strictEqStr (optStr orderDirection) "desc"
                  || strictEqStr (optStr orderDirection) "asc")) eqn:E.
    + by apply ordering_guard.
    + assert (Hn : ¬ valid) by (intros Hv; apply ordering_guard in Hv; congruence).
      rewrite (Hno Hn), Hp in Hc. apply (inj (String.app pre)) in Hc.
      discriminate Hc.
  - intros Hv. destruct (Hyes Hv) as (ob & d & pre & vpre & from & to & H).
    exists pre, d. tauto.
Qed.
End Search.

(** A search ordered by title, ascending: the ordering clause is there. *)
Lemma C5_ordering_guard_witness :
  ((∃ ob, Some "title" = Some ob ∧ ob ≠ "")
   ∧ (Some "asc" = Some "asc" ∨ Some "asc" = Some "desc"))
  ∧ ∃ pre d,
      sql (searchByField createArticle Article "authorId" "7" None None None
             None None) = pre +:+ "LIMIT ?, ?"
      ∧ sql (searchByField createArticle Article "authorId" "7" None
               (Some "title") (Some "asc") None None)
        = pre +:+ " ORDER BY ? " +:+ d +:+ "LIMIT ?, ?".
Proof.
  assert (Hvalid : (∃ ob, Some "title" = Some ob ∧ ob ≠ "")
                   ∧ (Some "asc" = Some "asc" ∨ Some "asc" = Some "desc")).
  { split; [| by left]. exists "title". by split. }
  split; [exact Hvalid |].
  apply (proj2 (proj1 (C5_ordering_guard createArticle Article "authorId" "7"
                         None (Some "title") (Some "asc") None None))).
  exact Hvalid.
Defined.

(** ** get *)

(** C6: the statement of a get ends in " LIMIT 1"; when the driver reports
    an error the Deferred is rejected with that error; when it reports no
    error and no row (a missing or an empty result) the Deferred is rejected
    without an error, and is not resolved; when it reports rows, the Deferred
    is resolved with the instance created from the first row. *)
Theorem C6_get_outcomes (create : row → Instance) (c : Constructor) (id : Z)
    (language : option string) :
  let call := get create c id language in
  ends_with (sql call) " LIMIT 1"
  ∧ values call = [VNum id; optStr language]
  ∧ (∀ e result, callback call (Some e) result = reject (Some e))
  ∧ callback call None None = reject None
  ∧ callback call None (Some []) = reject None
  ∧ (∀ r rs, callback call None (Some (r :: rs)) = resolve (create r)).
Proof.
  intros call. split.
  - subst call. unfold get. destruct (truthy (optStr language)); cbn [sql].
    + do 8 apply ends_with_append.
      by exists " USING (id) WHERE id = ? AND language = ?".
    + do 4 apply ends_with_append. by exists " WHERE id = ?".
  - split; [reflexivity |]. split; [reflexivity |]. split; [reflexivity |].
    split; [reflexivity |]. reflexivity.
Qed.


(** ** save *)

(** What save does through the main module, by its own test: with a truthy
    [object.language] and a truthy [object.languageFields] it starts a
    transaction and throws, because the transport's [exports] has no
    [data]; otherwise it sends the one upsert of the base relation. *)
Lemma save_calls (o : Instance) :
  save o
  = if truthy (getprop o "language") && truthy (getprop o "languageFields")
    then thrown o [StartTransaction]
    else {| path := Single;
            state := {| object := o; rolledback := false;
                        calls := [Query ("INSERT INTO "
                                         +:+ taxonomyName (constructor o)
                                         +:+ " SET ? ON DUPLICATE KEY UPDATE")
                                        (data o)];
                        saveDeferred := [] |} |}.
Proof. reflexivity. Qed.

(** Called on the transport itself, save throws on the single path as well:
    [this.data] is not there either. *)
Lemma saveOn_transport_throws (o : Instance) :
  path (saveOn sqlModule sqlModule o) = Thrown
  ∧ saveDeferred (state (saveOn sqlModule sqlModule o)) = [].
Proof. unfold saveOn, saveWithLanguage. by destruct (_ && _). Qed.

(** The [exports] of the SQL transport is the object the registry is
    handed: it has no property [data] and no property [languageData]. *)
Lemma sqlTransport_no_projection :
  member sqlTransport "data" = VUndefined
  ∧ member sqlTransport "languageData" = VUndefined.
Proof. by split. Qed.

(** C1: the test of save reads [languageFields] from the instance, not from
    its constructor.  For the English article, whose type declares
    [languageFields] and whose [language] is set, save takes the single
    path: one upsert of the base relation outside any transaction, and the
    language relation is not written.  The path save takes does not depend
    on the constructor at all. *)
Theorem C1_save_ignores_declared_languageFields :
  truthy (getprop article_en "language") = true
  ∧ languageFields (constructor article_en) = Some ["body"]
  ∧ path (save article_en) = Single
  ∧ calls (state (save article_en))
    = [Query "INSERT INTO articles SET ? ON DUPLICATE KEY UPDATE"
         (data article_en)]
  ∧ (∀ o c, path (save {| constructor := c; props := props o |})
            = path (save o)).
Proof.
  split; [reflexivity |]. split; [reflexivity |].
  split; [by vm_compute |]. split; [by vm_compute |].
  intros o c. rewrite !save_calls. unfold getprop. simpl.
  by destruct (truthy _ && truthy _).
Qed.

Lemma updateId_object (result : okPacket) (st : saveState) :
  object (updateId result st)
  = if negb (truthy (getprop (object st) "id")) && negb (insertId result =? 0)
    then setprop (object st) "id" (VNum (insertId result))
    else object st.
Proof.
  unfold updateId. simpl.
  by destruct (negb (truthy (getprop (object st) "id"))
               && negb (insertId result =? 0)).
Qed.

Lemma updateId_rest (result : okPacket) (st : saveState) :
  calls (updateId result st) = calls st
  ∧ saveDeferred (updateId result st) = saveDeferred st
  ∧ rolledback (updateId result st) = rolledback st.
Proof. unfold updateId. by destruct (_ && _). Qed.

Lemma run_thrown (p : pendingSave) (evs : list event) :
  path p = Thrown → run p evs = p.
Proof.
  intros Hp. induction evs as [|ev evs IH] using rev_ind; [done |].
  unfold run in *. rewrite foldl_snoc, IH. unfold deliver. by rewrite Hp.
Qed.

(** Through the main module a save either sends the single upsert or has
    thrown with the transaction started. *)
Lemma save_paths (o : Instance) :
  (path (save o) = Single
   ∧ truthy (getprop o "language") && truthy (getprop o "languageFields")
     = false)
  ∨ (save o = thrown o [StartTransaction]
     ∧ truthy (getprop o "language") && truthy (getprop o "languageFields")
       = true).
Proof.
  rewrite save_calls.
  destruct (truthy (getprop o "language")
            && truthy (getprop o "languageFields")); [right | left]; done.
Qed.

Lemma save_object (o : Instance) : object (state (save o)) = o.
Proof. rewrite save_calls. by destruct (_ && _). Qed.

(** What a save on the single path has done once the driver reports
    success with [result]. *)
Lemma save_success (o : Instance) (result : okPacket) :
  path (save o) = Single →
  let done := state (run (save o) [Done None result]) in
  object done
  = (if negb (truthy (getprop o "id")) && negb (insertId result =? 0)
     then setprop o "id" (VNum (insertId result))
     else o)
  ∧ saveDeferred done = [resolve (object done)]
  ∧ calls done
    = [Query ("INSERT INTO " +:+ taxonomyName (constructor o)
              +:+ " SET ? ON DUPLICATE KEY UPDATE") (data o)].
Proof.
  destruct (save_paths o) as [[_ Hg] | [Ht _]];
    [| rewrite Ht; discriminate].
  intros _. rewrite save_calls, Hg. unfold run. cbn [foldl deliver path state].
  unfold queryCallback, settleWith. cbn [object saveDeferred calls].
  rewrite updateId_object.
  destruct (updateId_rest result
    {| object := o; rolledback := false;
       calls := [Query ("INSERT INTO " +:+ taxonomyName (constructor o)
                        +:+ " SET ? ON DUPLICATE KEY UPDATE") (data o)];
       saveDeferred := [] |}) as (Hc & Hd & _).
  rewrite Hc, Hd. by cbn [object app calls saveDeferred].
Qed.

(** A save never changes an instance that has an id. *)
Lemma save_keeps_id (o : Instance) (result : okPacket) :
  truthy (getprop o "id") = true →
  object (state (run (save o) [Done None result])) = o.
Proof.
  intros Hid. destruct (save_paths o) as [[Hp _] | [Ht _]].
  - destruct (save_success o result Hp) as (Hobj & _).
    cbv zeta in Hobj. by rewrite Hobj, Hid.
  - rewrite Ht, run_thrown; done.
Qed.

(** The base projection carries the identifier exactly when [id] is a
    declared field. *)
Lemma data_id (o : Instance) :
  data o !! "id"
  = if bool_decide ("id" ∈ fields (constructor o))
    then Some (getprop o "id")
    else None.
Proof.
  unfold data. rewrite copyFields_lookup.
  by destruct (bool_decide ("id" ∈ fields (constructor o))).
Qed.

(** C2, as amended: take an instance that save handles with the single
    upsert.  The one statement it sends is
    INSERT INTO <taxonomyName> SET ? ON DUPLICATE KEY UPDATE with the base
    projection, the same with and without an id.  When the instance has no
    id and the driver reports success with a generated identifier, the
    identifier is on the instance by the time the Deferred is resolved with
    it, and saving that instance again, whatever the driver reports, leaves
    the id as it is.  When the instance has an id, a successful save leaves
    the instance as it was and resolves with it.  The payload carries the
    instance's id, so that the store updates the row of that id instead of
    inserting a new one, exactly when [id] is one of the declared fields. *)
Theorem C2_id_assigned_single_path (o : Instance) (result : okPacket) :
  path (save o) = Single →
  let done := state (run (save o) [Done None result]) in
  calls done
  = [Query ("INSERT INTO " +:+ taxonomyName (constructor o)
            +:+ " SET ? ON DUPLICATE KEY UPDATE") (data o)]
  ∧ saveDeferred done = [resolve (object done)]
  ∧ (truthy (getprop o "id") = false → insertId result ≠ 0 →
       object done = setprop o "id" (VNum (insertId result))
       ∧ getprop (object done) "id" = VNum (insertId result)
       ∧ ∀ result',
           object (state (run (save (object done)) [Done None result']))
           = object done)
  ∧ (truthy (getprop o "id") = true → object done = o)
  ∧ data o !! "id"
    = (if bool_decide ("id" ∈ fields (constructor o))
       then Some (getprop o "id")
       else None)
  ∧ (∀ stored n, getprop o "id" = VNum n → n ∈ stored →
       upsertOn stored (data o)
       = if bool_decide ("id" ∈ fields (constructor o))
         then Updates n
         else Inserts).
Proof.
  intros Hp done.
  destruct (save_success o result Hp) as (Hobj & Hdef & Hcalls).
  fold done in Hobj, Hdef, Hcalls.
  split; [done |]. split; [done |]. split; [| split; [| split]].
  - intros Hid Hins. apply Z.eqb_neq in Hins.
    rewrite Hid, Hins in Hobj. simpl in Hobj.
    assert (Hnew : getprop (object done) "id" = VNum (insertId result)).
    { rewrite Hobj. unfold getprop, setprop. simpl.
      by rewrite lookup_insert_eq. }
    split; [done |]. split; [done |].
    intros result'. apply save_keeps_id. rewrite Hnew. simpl.
    by rewrite Hins.
  - intros Hid. rewrite Hobj, Hid. done.
  - apply data_id.
  - intros stored n Hn Hin. unfold upsertOn. rewrite data_id.
    destruct (bool_decide ("id" ∈ fields (constructor o))); [| done].
    rewrite Hn. by rewrite bool_decide_eq_true_2.
Qed.

(** The English article, whose save takes the single path and whose type
    does not list [id]: a generated identifier is put on it, and it is not
    in the payload. *)
Lemma C2_id_assigned_single_path_witness :
  path (save article_en) = Single
  ∧ truthy (getprop article_en "id") = false
  ∧ getprop
      (object (state (run (save article_en) [Done None {| insertId := 42 |}])))
      "id" = VNum 42
  ∧ data article_en !! "id" = None.
Proof.
  assert (Hp : path (save article_en) = Single) by reflexivity.
  split; [exact Hp |]. split; [reflexivity |].
  destruct (C2_id_assigned_single_path article_en {| insertId := 42 |} Hp)
    as (_ & _ & Hnew & _ & Hdata & _).
  split; [| exact Hdata].
  exact (proj1 (proj2 (Hnew eq_refl ltac:(discriminate)))).
Defined.

(** The stored article has the id 5 and is saved again: what save sends is
    what it sends for the article that was never stored, the payload has no
    [id], and the store, holding the row 5, inserts a new row. *)
Lemma C2_update_counterexample :
  getprop article_saved "id" = VNum 5
  ∧ path (save article_saved) = Single
  ∧ calls (state (save article_saved))
    = [Query "INSERT INTO articles SET ? ON DUPLICATE KEY UPDATE"
         (data article_saved)]
  ∧ calls (state (save article_saved)) = calls (state (save article_en))
  ∧ data article_saved !! "id" = None
  ∧ upsertOn {[5]} (data article_saved) = Inserts
  ∧ upsertOn {[5]} (data article_saved) ≠ Updates 5.
Proof.
  assert (Hd : data article_saved = data article_en) by by vm_compute.
  assert (Hid : data article_saved !! "id" = None) by by rewrite data_id.
  assert (Hu : upsertOn {[5]} (data article_saved) = Inserts)
    by (unfold upsertOn; by rewrite Hid).
  split; [by vm_compute |]. split; [by vm_compute |].
  split; [by vm_compute |].
  split; [rewrite !save_calls; simpl; by rewrite Hd |].
  split; [done |]. split; [done |]. rewrite Hu. discriminate.
Qed.

(** ** saveWithLanguage *)

Lemma onError_rolledback (err : option error) (st : saveState) :
  rolledback st = true → onError err st = st.
Proof. intros H. destruct err; simpl; [by rewrite H | done]. Qed.

(** Delivering the results of the queued statements to a transactional
    save: nothing happens up to the first error, which rolls back and
    rejects; nothing happens after it. *)
Lemma run_steps (st : saveState) (errs : list (option error)) :
  state (run {| path := Transactional; state := st |} (StepDone <$> errs))
  = if rolledback st then st
    else match firstError errs with
         | Some e => settleWith (reject (Some e)) (rollback st)
         | None => st
         end.
Proof.
  revert st. induction errs as [|err errs IH]; intros st.
  - simpl. by destruct (rolledback st).
  - unfold run in *. rewrite fmap_cons. cbn [foldl].
    change (deliver {| path := Transactional; state := st |} (StepDone err))
      with {| path := Transactional; state := onError err st |}.
    rewrite IH. destruct (rolledback st) eqn:Hrb.
    + by rewrite onError_rolledback, Hrb.
    + destruct err as [e|]; simpl; rewrite Hrb; simpl; done.
Qed.

Lemma run_path (p : pendingSave) (evs : list event) :
  path (run p evs) = path p.
Proof.
  revert p. induction evs as [|ev evs IH]; intros p; [done |].
  unfold run in *. simpl. rewrite IH.
  unfold deliver. by destruct (path p) eqn:E, ev.
Qed.

Lemma run_app (p : pendingSave) (evs evs' : list event) :
  run p (evs ++ evs') = run (run p evs) evs'.
Proof. unfold run. apply foldl_app. Qed.

Lemma deliver_flag_counts (p : pendingSave) (ev : event) :
  flag_counts (state p) → flag_counts (state (deliver p ev)).
Proof.
  unfold flag_counts, rollbacks, deliver. intros H.
  destruct (path p), ev as [[e|]|[e|] result]; simpl; try done.
  - destruct (rolledback (state p)) eqn:Hrb; simpl; rewrite ?Hrb; [done |].
    by rewrite List.filter_app, length_app, H.
  - by destruct (updateId_rest result (state p)) as (-> & _ & ->).
  - by destruct (updateId_rest result (state p)) as (-> & _ & ->).
Qed.

Lemma run_flag_counts (p : pendingSave) (evs : list event) :
  flag_counts (state p) → flag_counts (state (run p evs)).
Proof.
  revert p. induction evs as [|ev evs IH]; intros p H; [done |].
  unfold run in *. simpl. by apply IH, deliver_flag_counts.
Qed.

(** The calls on the Deferred are only ever added to. *)
Lemma deliver_deferred (p : pendingSave) (ev : event) :
  ∃ more, saveDeferred (state (deliver p ev))
          = saveDeferred (state p) ++ more.
Proof.
  unfold deliver.
  destruct (path p), ev as [[e|]|[e|] result]; simpl;
    try (by exists []; rewrite app_nil_r); try (by eexists).
  - destruct (rolledback (state p)); simpl;
      [by exists []; rewrite app_nil_r | by eexists].
  - destruct (updateId_rest result (state p)) as (_ & -> & _). by eexists.
  - destruct (updateId_rest result (state p)) as (_ & -> & _). by eexists.
Qed.

Lemma run_deferred (p : pendingSave) (evs : list event) :
  ∃ more, saveDeferred (state (run p evs)) = saveDeferred (state p) ++ more.
Proof.
  revert p. induction evs as [|ev evs IH]; intros p.
  - exists []. by rewrite app_nil_r.
  - unfold run in *. simpl.
    destruct (IH (deliver p ev)) as [m1 ->].
    destruct (deliver_deferred p ev) as [m2 ->].
    exists (m2 ++ m1). by rewrite app_assoc.
Qed.

Lemma firstError_app (errs errs' : list (option error)) :
  firstError (errs ++ errs')
  = match firstError errs with
    | Some e => Some e
    | None => firstError errs'
    end.
Proof.
  induction errs as [|[e|] errs IH]; simpl; [done | done | apply IH].
Qed.

(** Had the transport's [exports] the two projections of the main module,
    saveWithLanguage would queue both statements and the commit, and its
    handlers would do this with the results of the queued statements:
    nothing before the first error; at the first error one rollback and the
    rejection with that error; nothing after it; never a second rollback. *)
Lemma saveWithLanguage_handlers (o : Instance) :
  let p := saveWithLanguage mainModule o in
  path p = Transactional
  ∧ (∀ errs,
       let st := state (run p (StepDone <$> errs)) in
       match firstError errs with
       | Some e =>
           calls st = calls (state p) ++ [TransRollback]
           ∧ saveDeferred st = [reject (Some e)]
           ∧ rolledback st = true
           ∧ object st = o
       | None => st = state p
       end)
  ∧ (∀ evs, (rollbacks (state (run p evs)) ≤ 1)%nat).
Proof.
  intros p. subst p. unfold saveWithLanguage. cbn [dataMember
    languageDataMember mainModule]. split; [done |]. split.
  - intros errs. rewrite run_steps. simpl.
    by destruct (firstError errs).
  - intros evs.
    pose proof (run_flag_counts (saveWithLanguage mainModule o) evs eq_refl)
      as H.
    unfold saveWithLanguage in H. cbn [dataMember languageDataMember
      mainModule] in H.
    unfold flag_counts in H. rewrite H.
    destruct (rolledback _); lia.
Qed.

(** C7: the article that carries [language] and [languageFields] passes the
    test of save, so save calls saveWithLanguage, which starts the
    transaction and throws on [exports.data]: nothing is queued, no callback
    is registered and no Deferred is returned.  Whatever the driver reports
    afterwards, step errors included, the transaction started is never
    rolled back and the save is never rejected. *)
Theorem C7_transactional_save_throws (evs : list event) :
  truthy (getprop article_own "language") = true
  ∧ truthy (getprop article_own "languageFields") = true
  ∧ path (run (save article_own) evs) = Thrown
  ∧ calls (state (run (save article_own) evs)) = [StartTransaction]
  ∧ saveDeferred (state (run (save article_own) evs)) = []
  ∧ rollbacks (state (run (save article_own) evs)) = 0%nat.
Proof.
  assert (Hs : save article_own = thrown article_own [StartTransaction])
    by by vm_compute.
  rewrite Hs, run_thrown by done. by repeat split.
Qed.

(** * Further properties of the two modules and the transports *)

(** ** create *)

Lemma assign_keys (l : list (string * value)) (k : string) (v : value) :
  k ∈ l.*1 → (assign l k v).*1 = l.*1.
Proof.
  induction l as [|[k' v'] l IH]; simpl; intros Hin.
  - by apply elem_of_nil in Hin.
  - destruct (String.eqb_spec k' k) as [->|Hne]; simpl; [done |].
    apply elem_of_cons in Hin as [->|Hin]; [done |]. f_equal. by apply IH.
Qed.

Lemma assoc_assign (l : list (string * value)) (k k' : string) (v : value) :
  assoc (assign l k v) k' = if String.eqb k k' then Some v else assoc l k'.
Proof.
  induction l as [|[k0 v0] l IH]; simpl.
  - done.
  - destruct (String.eqb_spec k0 k) as [->|Hne]; simpl.
    + by destruct (String.eqb k k').
    + rewrite IH. destruct (String.eqb_spec k0 k') as [->|Hne'];
        [| done].
      destruct (String.eqb_spec k k') as [->|]; [done | done].
Qed.

Lemma member_setOwn (o : jsobject) (k k' : string) (v : value) :
  member (setOwn o k v) k' = if String.eqb k k' then v else member o k'.
Proof.
  unfold member, setOwn. simpl. rewrite assoc_assign.
  by destruct (String.eqb k k').
Qed.

Lemma assoc_app (l l' : list (string * value)) (k : string) :
  assoc (l ++ l') k = match assoc l k with
                      | Some v => Some v
                      | None => assoc l' k
                      end.
Proof.
  induction l as [|[k0 v0] l IH]; simpl; [done |].
  by destruct (String.eqb k0 k).
Qed.

Lemma assoc_None (l : list (string * value)) (k : string) :
  assoc l k = None → k ∉ l.*1.
Proof.
  induction l as [|[k0 v0] l IH]; simpl; [intros _; apply not_elem_of_nil |].
  destruct (String.eqb_spec k0 k) as [->|Hne]; [discriminate |].
  intros H. apply not_elem_of_cons. split; [congruence | by apply IH].
Qed.

Lemma builtin_guard_setOwn (hidden : option value) (o : jsobject)
    (k : string) (v : value) :
  builtin_guard hidden o → hasOwnProperty o k = true →
  builtin_guard hidden (setOwn o k v).
Proof.
  unfold builtin_guard, guardValue, setOwn, hasOwnProperty. simpl.
  rewrite !assoc_app, assoc_assign. intros Hb Hk.
  apply bool_decide_eq_true in Hk.
  destruct (String.eqb_spec k "hasOwnProperty") as [->|Hne]; [| done].
  destruct (assoc (own o) "hasOwnProperty") eqn:Ha; [done |].
  by apply assoc_None in Ha.
Qed.

Lemma createLoop_spec (hidden : option value) (data : jsobject)
    (keys : list string) (object : jsobject) :
  builtin_guard hidden object →
  ∃ r, Main.createLoop hidden object data keys = Returns r
       ∧ (own r).*1 = (own object).*1
       ∧ inherited r = inherited object
       ∧ ∀ k, member r k
              = if hasOwnProperty object k && bool_decide (k ∈ keys)
                then member data k
                else member object k.
Proof.
  revert object. induction keys as [|key keys IH]; intros object Hb.
  - exists object. split; [done |]. split; [done |]. split; [done |].
    intros k. rewrite bool_decide_eq_false_2 by apply not_elem_of_nil.
    by rewrite andb_false_r.
  - simpl. unfold guardOf. rewrite Hb.
    destruct (hasOwnProperty object key) eqn:Hk.
    + destruct (IH (setOwn object key (member data key)))
        as (r & Hr & Hkeys & Hinh & Hval).
      { by apply builtin_guard_setOwn. }
      exists r. split; [done |].
      assert (Hsame : (own (setOwn object key (member data key))).*1
                      = (own object).*1).
      { simpl. apply assign_keys. unfold hasOwnProperty in Hk.
        by apply bool_decide_eq_true in Hk. }
      split; [by rewrite Hkeys |]. split; [done |].
      intros k. rewrite Hval, member_setOwn.
      unfold hasOwnProperty at 1. rewrite Hsame.
      fold (hasOwnProperty object k).
      destruct (String.eqb_spec key k) as [->|Hne].
      * rewrite Hk. rewrite (bool_decide_eq_true_2 (k ∈ k :: keys))
          by apply list_elem_of_here.
        simpl. by destruct (bool_decide (k ∈ keys)).
      * rewrite (bool_decide_ext (k ∈ key :: keys) (k ∈ keys)); [done |].
        rewrite elem_of_cons. split; [intros [?|?]; [congruence | done] |].
        by right.
    + destruct (IH object Hb) as (r & Hr & Hkeys & Hinh & Hval).
      exists r. split; [done |]. split; [done |]. split; [done |].
      intros k. rewrite Hval.
      destruct (decide (k = key)) as [->|Hne].
      * by rewrite Hk.
      * rewrite (bool_decide_ext (k ∈ key :: keys) (k ∈ keys)); [done |].
        rewrite elem_of_cons. split; [intros [?|?]; [congruence | done] |].
        by right.
Qed.

Lemma elem_of_forin_once (o : jsobject) (k : string) :
  k ∈ forin_once o ↔ k ∈ forin_keys o.
Proof.
  unfold forin_once, forin_keys. rewrite !elem_of_app, !list_elem_of_In.
  rewrite List.filter_In, <- !list_elem_of_In. unfold hasOwnProperty.
  split.
  - intros [?|[? _]]; [by left | by right].
  - intros [?|Hi]; [by left |].
    destruct (decide (k ∈ (own o).*1)) as [?|Hn]; [by left | right].
    split; [done |]. by rewrite bool_decide_eq_false_2.
Qed.

Lemma create_spec (hidden : option value) (object data : jsobject) :
  builtin_guard hidden object →
  ∃ r, Main.create hidden object data = Returns r
       ∧ (own r).*1 = (own object).*1
       ∧ inherited r = inherited object
       ∧ ∀ k, member r k
              = if hasOwnProperty object k && bool_decide (k ∈ forin_keys data)
                then member data k
                else member object k.
Proof.
  intros Hb.
  destruct (createLoop_spec hidden data (forin_once data) object Hb)
    as (r & Hr & Hkeys & Hinh & Hval).
  exists r. split; [done |]. split; [done |]. split; [done |].
  intros k. rewrite Hval.
  by rewrite (bool_decide_ext (k ∈ forin_once data) (k ∈ forin_keys data))
    by apply elem_of_forin_once.
Qed.

(** The call goes through the object: when the new object owns a property
    [hasOwnProperty] and the data carries that key with a value that is no
    function, the pass for that key overwrites the guard and the pass for
    the next key throws. *)
Lemma create_overwritten_guard_throws :
  Main.create None
    {| own := [("hasOwnProperty", VFun "hasOwnProperty");
               ("title", VUndefined)];
       inherited := [] |}
    {| own := [("hasOwnProperty", VNum 1); ("title", VStr "X")];
       inherited := [] |}
  = Throws.
Proof. reflexivity. Qed.

(** X1: when [hasOwnProperty] on the new object is the built-in, create
    returns, and what it returns has the same own property names, in the
    same order, and the same inherited properties as the new object: it adds
    no property and removes none, so a key of the data that the new object
    does not own is dropped. *)
Theorem X1_create_keeps_shape (hidden : option value)
    (object data : jsobject) :
  builtin_guard hidden object →
  ∃ created,
    Main.create hidden object data = Returns created
    ∧ (own created).*1 = (own object).*1
    ∧ inherited created = inherited object
    ∧ ∀ k, hasOwnProperty created k = hasOwnProperty object k.
Proof.
  intros Hb.
  destruct (create_spec hidden object data Hb) as (r & Hr & Hk & Hi & _).
  exists r. split; [done |]. split; [done |]. split; [done |].
  intros k. unfold hasOwnProperty. by rewrite Hk.
Qed.

(** X2: when [hasOwnProperty] on the new object is the built-in, create
    returns an object on which a property reads as the data's value when
    the new object owned it and the data has that key, and as the new
    object's value otherwise. *)
Theorem X2_create_copies_known (hidden : option value)
    (object data : jsobject) (k : string) :
  builtin_guard hidden object →
  ∃ created,
    Main.create hidden object data = Returns created
    ∧ member created k
      = if hasOwnProperty object k && bool_decide (k ∈ forin_keys data)
        then member data k
        else member object k.
Proof.
  intros Hb.
  destruct (create_spec hidden object data Hb) as (r & Hr & _ & _ & Hv).
  exists r. split; [done | apply Hv].
Qed.

Lemma list_to_map_assoc (l : list (string * value)) (k : string) :
  (list_to_map l : gmap string value) !! k = assoc l k.
Proof.
  induction l as [|[k0 v0] l IH]; simpl; [apply lookup_empty |].
  destruct (String.eqb_spec k0 k) as [->|Hne].
  - apply lookup_insert_eq.
  - by rewrite lookup_insert_ne.
Qed.

Lemma getprop_toInstance (c : Constructor) (o : jsobject) (k : string) :
  getprop (toInstance c o) k = member o k.
Proof.
  unfold getprop, toInstance, member. simpl.
  rewrite list_to_map_assoc, assoc_app. by destruct (assoc (own o) k).
Qed.

(** X3: when [hasOwnProperty] on the new object is the built-in, a declared
    field other than [__proto__] that the new object owns and the data
    carries comes out of the base projection of the created object with the
    data's value. *)
Theorem X3_create_then_data (hidden : option value) (c : Constructor)
    (object received : jsobject) (k : string) :
  builtin_guard hidden object →
  k ∈ fields c →
  k ≠ "__proto__" →
  hasOwnProperty object k = true →
  k ∈ forin_keys received →
  ∃ created,
    Main.create hidden object received = Returns created
    ∧ data (toInstance c created) !! k = Some (member received k).
Proof.
  intros Hb Hf Hproto Hown Hin.
  destruct (create_spec hidden object received Hb)
    as (r & Hr & _ & _ & Hv).
  exists r. split; [done |]. unfold data. simpl.
  rewrite copyFields_lookup, bool_decide_eq_true_2 by done.
  apply String.eqb_neq in Hproto. rewrite Hproto. simpl.
  rewrite getprop_toInstance, Hv, Hown, bool_decide_eq_true_2; done.
Qed.

(** ** connect *)

Lemma successes_cons (r : option error) (rs : list (option error)) :
  successes (r :: rs)
  = ((if r is None then 1 else 0) + successes rs)%nat.
Proof. unfold successes. by destruct r. Qed.

Lemma checks_log (rs : list (option error)) (st : connectState) :
  let st' := checks rs st in
  connected st' = connected st + Z.of_nat (successes rs)
  ∧ omap rejectedWith (connectDeferred st')
    = omap rejectedWith (connectDeferred st) ++ errorsOf rs
  ∧ length (List.filter isResolve (connectDeferred st'))
    = (length (List.filter isResolve (connectDeferred st))
       + if ((connected st <? 2)
             && (2 <=? connected st + Z.of_nat (successes rs)))%Z
         then 1 else 0)%nat.
Proof.
  revert st. induction rs as [|r rs IH]; intros st; simpl.
  - unfold successes, errorsOf. simpl. rewrite Z.add_0_r, app_nil_r.
    split; [done |]. split; [done |].
    destruct (Z.ltb_spec (connected st) 2), (Z.leb_spec 2 (connected st));
      simpl; lia.
  - destruct (IH (check r st)) as (Hc & He & Hr).
    unfold checks in *. cbn [foldl]. cbv zeta.
    rewrite Hc, He, Hr, successes_cons, Nat2Z.inj_add.
    clear Hc He Hr IH. unfold errorsOf.
    destruct r as [e|]; unfold check; cbv zeta.
    + simpl. split; [done |]. split.
      * by rewrite omap_app, <- app_assoc.
      * rewrite List.filter_app, length_app. simpl.
        by rewrite Nat.add_0_r.
    + change (Z.of_nat 1) with 1.
      pose proof (Nat2Z.is_nonneg (successes rs)) as Hn.
      set (n := Z.of_nat (successes rs)) in *. clearbody n.
      destruct (Z.eqb_spec 2 (connected st + 1)) as [H2|H2];
        cbn [connected connectDeferred omap list_omap].
      * split; [lia |]. split; [by rewrite omap_app, app_nil_r |].
        rewrite List.filter_app, length_app. cbn [List.filter isResolve length].
        destruct (Z.ltb_spec (connected st + 1) 2),
                 (Z.ltb_spec (connected st) 2),
                 (Z.leb_spec 2 (connected st + 1 + n)),
                 (Z.leb_spec 2 (connected st + (1 + n)));
          cbn [andb]; lia.
      * split; [lia |]. split; [done |].
        destruct (Z.ltb_spec (connected st + 1) 2),
                 (Z.ltb_spec (connected st) 2),
                 (Z.leb_spec 2 (connected st + 1 + n)),
                 (Z.leb_spec 2 (connected st + (1 + n)));
          cbn [andb]; lia.
Qed.

(** X7: whatever results the driver calls [check] back with, connect's
    Deferred is rejected once for each error, with the errors in order, and
    resolved once if at least two callbacks succeed and never otherwise; with
    the two callbacks of the two connections it is resolved exactly when both
    succeed. *)
Theorem X7_connect_resolves_once (writeOptions readOptions : gmap string value)
    (rs : list (option error)) :
  let st := checks rs (connect writeOptions readOptions).2 in
  omap rejectedWith (connectDeferred st) = errorsOf rs
  ∧ length (List.filter isResolve (connectDeferred st))
    = (if (2 <=? successes rs)%nat then 1 else 0)%nat
  ∧ ∀ a b,
      connectDeferred (checks [a; b] (connect writeOptions readOptions).2)
      = match a, b with
        | None, None => [resolve ()]
        | _, _ => (fun e => reject (Some e)) <$> errorsOf [a; b]
        end.
Proof.
  intros st.
  destruct (checks_log rs (connect writeOptions readOptions).2)
    as (_ & He & Hr).
  fold st in He, Hr.
  cbn [connect snd connected connectDeferred omap list_omap List.filter
       length app Nat.add] in He, Hr.
  change (0 <? 2) with true in Hr. rewrite Z.add_0_l in Hr.
  split; [done |]. split.
  - rewrite Hr. destruct (Nat.leb_spec 2 (successes rs)),
      (Z.leb_spec 2 (Z.of_nat (successes rs))); cbn [andb]; lia.
  - by intros [e1|] [e2|].
Qed.

(** ** getOtherLanguages *)

Lemma indexOfFrom_absent (l : list string) (x : string) (i : Z) :
  0 ≤ i →
  (indexOfFrom l (VStr x) i =? -1) = negb (bool_decide (x ∈ l)).
Proof.
  revert i. induction l as [|y l IH]; intros i Hi; simpl; [done |].
  destruct (String.eqb_spec x y) as [->|Hne].
  - rewrite bool_decide_eq_true_2 by apply list_elem_of_here.
    simpl. apply Z.eqb_neq. lia.
  - rewrite IH by lia. f_equal. apply bool_decide_ext.
    rewrite elem_of_cons. split; [by right | intros [?|?]; [done | done]].
Qed.

Lemma indexOf_undefined (l : list string) : indexOf l VUndefined = -1.
Proof.
  unfold indexOf. generalize 0. induction l as [|y l IH]; intros i; simpl;
    [done | apply IH].
Qed.

(** X11: for a type that declares languageFields, a nameField that is one of
    them is selected next to the language, and a nameField that is not one of
    them gives the same call as no nameField at all. *)
Theorem X11_getOtherLanguages_name (o : Instance) (fs : list string)
    (nameField : string) :
  languageFields (constructor o) = Some fs →
  if bool_decide (nameField ∈ fs)
  then sql <$> getOtherLanguages o (Some nameField)
       = Some ("SELECT language, " +:+ nameField +:+ " FROM "
               +:+ taxonomyName (constructor o)
               +:+ "_language WHERE id = ? AND language != ?")
  else getOtherLanguages o (Some nameField) = getOtherLanguages o None.
Proof.
  intros Hfs. unfold getOtherLanguages. rewrite Hfs. simpl.
  rewrite indexOf_undefined. unfold indexOf.
  rewrite indexOfFrom_absent by lia. rewrite negb_involutive.
  destruct (bool_decide (nameField ∈ fs)); simpl; [| done].
  f_equal.
Qed.

(** X12: getOtherLanguages throws exactly when the type declares no
    languageFields.  Otherwise it binds the instance's id and language,
    rejects with the driver's error, resolves without a value when there is no
    row (where get rejects), and resolves with all the rows when there are
    some. *)
Theorem X12_getOtherLanguages_outcomes (create : row → Instance) (id : Z)
    (language : option string) (o : Instance) (nameField : option string) :
  (getOtherLanguages o nameField = None
   ↔ languageFields (constructor o) = None)
  ∧ match getOtherLanguages o nameField with
    | None => True
    | Some call =>
        values call = [getprop o "id"; getprop o "language"]
        ∧ (∀ e result, callback call (Some e) result = reject (Some e))
        ∧ callback call None None = resolve None
        ∧ callback call None (Some []) = resolve None
        ∧ (∀ r rs, callback call None (Some (r :: rs))
                   = resolve (Some (r :: rs)))
        ∧ callback (get create (constructor o) id language) None (Some [])
          = reject None
    end.
Proof.
  unfold getOtherLanguages.
  destruct (languageFields (constructor o)) as [fs|]; simpl.
  - split; [split; discriminate |]. by repeat split.
  - by repeat split.
Qed.

(** ** Placeholders *)

Lemma count_char_append (a : ascii) (s t : string) :
  count_char a (s +:+ t) = (count_char a s + count_char a t)%nat.
Proof.
  induction s as [|b s IH]; [reflexivity |].
  rewrite append_cons. simpl. rewrite IH. lia.
Qed.

Lemma placeholders_append (s t : string) :
  placeholders (s +:+ t) = (placeholders s + placeholders t)%nat.
Proof. apply count_char_append. Qed.

(** X8: for a table name without placeholder, the statements of remove and
    removeLanguage end in LIMIT 1, have as many placeholders as bound values,
    and do not depend on the properties of the instance. *)
Theorem X8_delete_one_row (o : Instance) :
  placeholders (taxonomyName (constructor o)) = 0%nat →
  ends_with (wsql (remove o)) " LIMIT 1"
  ∧ ends_with (wsql (removeLanguage o)) " LIMIT 1"
  ∧ placeholders (wsql (remove o)) = length (wvalues (remove o))
  ∧ placeholders (wsql (removeLanguage o))
    = length (wvalues (removeLanguage o))
  ∧ (∀ p, wsql (remove {| constructor := constructor o; props := p |})
          = wsql (remove o))
  ∧ (∀ p, wsql (removeLanguage {| constructor := constructor o; props := p |})
          = wsql (removeLanguage o)).
Proof.
  intros Hname. unfold remove, removeLanguage. cbn [wsql wvalues constructor].
  rewrite !placeholders_append, Hname.
  split; [| split; [| by repeat split]].
  - do 2 apply ends_with_append. by exists " WHERE id = ?".
  - do 2 apply ends_with_append.
    by exists "_language WHERE id = ? AND language = ?".
Qed.

(** X15: the statement text of a search is the same for any two searches on
    the same type with the same orderDirection whose languages are both given
    or both not and whose orderBy are both given or both not: field, value,
    the language itself, the orderBy column and the limits never reach the
    text. *)
Theorem X15_search_statement_fixed (create create' : row → Instance)
    (c : Constructor) (field value field' value' : string)
    (language language' orderBy orderBy' orderDirection : option string)
    (limitFrom limitTo limitFrom' limitTo' : option Z) :
  truthy (optStr language) = truthy (optStr language') →
  truthy (optStr orderBy) = truthy (optStr orderBy') →
  sql (searchByField create c field value language orderBy orderDirection
         limitFrom limitTo)
  = sql (searchByField create' c field' value' language' orderBy'
           orderDirection limitFrom' limitTo').
Proof.
  intros Hl Ho. unfold searchByField. rewrite Hl, Ho.
  destruct (truthy (optStr language'));
    destruct (truthy (optStr orderBy')
              && (strictEqStr (optStr orderDirection) "desc"
                  || strictEqStr (optStr orderDirection) "asc"));
    reflexivity.
Qed.

(** X16: for a schema without placeholder in its names, the statement of a
    search has exactly as many placeholders as the call binds values. *)
Theorem X16_search_placeholders (create : row → Instance) (c : Constructor)
    (field value : string) (language orderBy orderDirection : option string)
    (limitFrom limitTo : option Z) :
  plain_names c →
  placeholders (sql (searchByField create c field value language orderBy
                       orderDirection limitFrom limitTo))
  = length (values (searchByField create c field value language orderBy
                      orderDirection limitFrom limitTo)).
Proof.
  intros (Ht & Hf & Hl). search_cases language orderBy orderDirection.
  1,3: apply ordering_guard in Heqb as [_ [-> | ->]].
  all: rewrite !placeholders_append, ?Ht, ?Hf, ?Hl, !length_app; reflexivity.
Qed.

(** X9: for a schema without placeholder in its names, get always binds two
    values, the id and the language (undefined when absent), while its
    statement has two placeholders with a language and one without. *)
Theorem X9_get_placeholders (create : row → Instance) (c : Constructor)
    (id : Z) (language : option string) :
  plain_names c →
  values (get create c id language) = [VNum id; optStr language]
  ∧ placeholders (sql (get create c id language))
    = (if truthy (optStr language) then 2 else 1)%nat.
Proof.
  intros (Ht & Hf & Hl). split; [reflexivity |]. unfold get.
  destruct (truthy (optStr language)); cbn [sql];
    rewrite !placeholders_append, ?Ht, ?Hf, ?Hl; reflexivity.
Qed.

(** ** save: what the callbacks touch *)

Lemma updateId_only_id (o : Instance) (result : okPacket) (st : saveState) :
  only_id_changed o (object st) →
  only_id_changed o (object (updateId result st)).
Proof.
  intros [Hc Hp]. rewrite updateId_object.
  destruct (truthy (getprop (object st) "id")) eqn:Hid; simpl; [done |].
  destruct (Z.eqb_spec (insertId result) 0) as [|Hne]; simpl; [done |].
  split; [done |]. right. exists (insertId result).
  destruct Hp as [Hp | (n & Hn & _ & Hp)].
  - unfold getprop in *. rewrite Hp in Hid. simpl. by rewrite Hp.
  - unfold getprop in Hid. rewrite Hp, lookup_insert_eq in Hid. simpl in Hid.
    apply negb_false_iff, Z.eqb_eq in Hid. done.
Qed.

Lemma deliver_only_id (o : Instance) (p : pendingSave) (ev : event) :
  only_id_changed o (object (state p)) →
  only_id_changed o (object (state (deliver p ev))).
Proof.
  intros H. unfold deliver.
  destruct (path p), ev as [[e|]|[e|] result]; simpl; try done.
  - by destruct (rolledback (state p)).
  - by apply updateId_only_id.
  - by apply updateId_only_id.
Qed.

Lemma run_only_id (o : Instance) (p : pendingSave) (evs : list event) :
  only_id_changed o (object (state p)) →
  only_id_changed o (object (state (run p evs))).
Proof.
  revert p. induction evs as [|ev evs IH]; intros p H; [done |].
  unfold run in *. simpl. by apply IH, deliver_only_id.
Qed.

(** X13: whatever the driver calls back and in whatever order, the instance of
    a save keeps its constructor and its properties, except that an instance
    without id may get a non-zero id; an instance that has an id is never
    changed. *)
Theorem X13_save_touches_only_id (o : Instance) (evs : list event) :
  only_id_changed o (object (state (run (save o) evs)))
  ∧ (if truthy (getprop o "id")
     then object (state (run (save o) evs)) = o
     else True).
Proof.
  assert (H : only_id_changed o (object (state (run (save o) evs)))).
  { apply run_only_id. rewrite save_object. split; [done | by left]. }
  split; [done |].
  destruct (truthy (getprop o "id")) eqn:Hid; [| done].
  destruct H as [Hc [Hp | (n & _ & Hfalse & _)]]; [| congruence].
  destruct (object _) as [c' p']. destruct o as [c p]. simpl in *. congruence.
Qed.

(** ** save: what the callbacks send *)

Lemma deliver_single (p : pendingSave) (ev : event) :
  path p = Single →
  path (deliver p ev) = Single
  ∧ calls (state (deliver p ev)) = calls (state p)
  ∧ rolledback (state (deliver p ev)) = rolledback (state p).
Proof.
  intros Hp. unfold deliver. rewrite Hp.
  destruct ev as [err | [e|] result]; simpl; [done | done |].
  by destruct (updateId_rest result (state p)) as (-> & _ & ->).
Qed.

Lemma run_single (p : pendingSave) (evs : list event) :
  path p = Single →
  calls (state (run p evs)) = calls (state p)
  ∧ rolledback (state (run p evs)) = rolledback (state p).
Proof.
  revert p. induction evs as [|ev evs IH]; intros p Hp; [done |].
  destruct (deliver_single p ev Hp) as (Hp' & Hc & Hr).
  destruct (IH (deliver p ev) Hp') as [Hc' Hr'].
  unfold run in *. simpl. by rewrite Hc', Hr', Hc, Hr.
Qed.

(** X14: whatever the driver calls back, a save through the main module
    makes no call on the write client beyond those it made before it
    returned or threw, and never a rollback: an error of the single query
    rejects the Deferred and sends nothing. *)
Theorem X14_save_sends_nothing_more (o : Instance) (evs : list event) :
  let st := state (run (save o) evs) in
  calls st = calls (state (save o))
  ∧ rolledback st = false
  ∧ rollbacks st = 0%nat.
Proof.
  intros st. subst st. destruct (save_paths o) as [[Hp Hg] | [Ht _]].
  - destruct (run_single (save o) evs Hp) as [Hc Hr].
    rewrite Hc, Hr. unfold rollbacks. rewrite Hc.
    rewrite save_calls, Hg. by repeat split.
  - rewrite Ht, run_thrown by done. by repeat split.
Qed.

(** ** AJAX transport *)

Lemma setAuth_auth_only (auth : value) (headers : option (gmap string value)) :
  auth_only headers →
  auth_only (Ajax.setAuth auth headers)
  ∧ Ajax.authorization (Ajax.setAuth auth headers)
    = if truthy auth then Some auth else None.
Proof.
  unfold Ajax.setAuth, Ajax.authorization, auth_only.
  destruct (truthy auth) eqn:Ha; simpl.
  - intros H. rewrite lookup_insert_eq. split; [| done]. right.
    exists auth. split; [done |].
    destruct headers as [h|]; simpl; [| done].
    destruct H as [-> | (a & _ & ->)]; [done |].
    apply insert_singleton_eq.
  - destruct headers as [h|]; simpl; [| done].
    intros [-> | (a & Hta & ->)].
    + rewrite lookup_empty. simpl. split; [by left |]. apply lookup_empty.
    + rewrite lookup_singleton_eq. simpl. rewrite Hta. simpl.
      rewrite delete_singleton_eq. split; [by left |]. apply lookup_empty.
Qed.

(** X4: after any sequence of setAuth calls the Authorization header is the
    last argument when that is truthy and absent otherwise, and the header
    object, once there is one, holds nothing else. *)
Theorem X4_setAuth_last_wins (auths : list value) :
  let headers := foldl (fun h a => Ajax.setAuth a h) None auths in
  Ajax.authorization headers
  = last auths ≫= (fun a => if truthy a then Some a else None)
  ∧ auth_only headers.
Proof.
  induction auths as [|a auths IH] using rev_ind; [done |].
  cbv zeta in *. rewrite foldl_snoc, last_snoc. simpl.
  destruct IH as [_ Hok].
  destruct (setAuth_auth_only a _ Hok) as [Hok' Hauth]. done.
Qed.

Section AjaxPaths.
Context (str : value → string) (headers : option (gmap string value)).

(** X5: the AJAX save called with the module object the transport defines
    throws for every instance before any request, because that object has
    no [data].  With a module object whose [data] is a function, it sends
    what the function returns with the current headers: for an instance with
    an id as a PUT on the URL that get reads the same id and language from,
    otherwise as a POST on the collection URL. *)
Theorem X5_ajax_save_request (exports : moduleObject) (o : Instance) :
  Ajax.save str headers ajaxModule o = None
  ∧ match dataMember exports with
    | None => Ajax.save str headers exports o = None
    | Some projection =>
        Ajax.save str headers exports o
        = Some {| Ajax.meth :=
                    if truthy (getprop o "id") then Ajax.PUT else Ajax.POST;
                  Ajax.url :=
                    if truthy (getprop o "id")
                    then Ajax.url (Ajax.get str headers (constructor o)
                                     (getprop o "id") (getprop o "language"))
                    else "/" +:+ taxonomyName (constructor o);
                  Ajax.params := Some (projection o);
                  Ajax.hdrs := headers |}
    end.
Proof.
  unfold Ajax.save, Ajax.get. split.
  - by destruct (truthy (getprop o "id")).
  - destruct (dataMember exports) as [projection|];
      destruct (truthy (getprop o "id")); try done;
      by destruct (truthy (getprop o "language")).
Qed.

(** X6: the AJAX remove deletes the URL that get reads without language;
    removeLanguage deletes that URL followed by the instance's language as a
    string, whether or not the language is set, which is the URL get reads
    when the language is truthy; getOtherLanguages reads the removeLanguage
    URL followed by /others. *)
Theorem X6_ajax_urls (o : Instance) (nameField : value) :
  Ajax.url (Ajax.remove str headers o)
  = Ajax.url (Ajax.get str headers (constructor o) (getprop o "id") VUndefined)
  ∧ Ajax.url (Ajax.removeLanguage str headers o)
    = Ajax.url (Ajax.remove str headers o)
      +:+ "/" +:+ str (getprop o "language")
  ∧ Ajax.url (Ajax.getOtherLanguages str headers o nameField)
    = Ajax.url (Ajax.removeLanguage str headers o) +:+ "/others"
  ∧ (if truthy (getprop o "language")
     then Ajax.url (Ajax.removeLanguage str headers o)
          = Ajax.url (Ajax.get str headers (constructor o) (getprop o "id")
                        (getprop o "language"))
     else True).
Proof.
  unfold Ajax.remove, Ajax.removeLanguage, Ajax.getOtherLanguages, Ajax.get.
  simpl. rewrite !append_assoc. repeat split.
  destruct (truthy (getprop o "language")); [| done].
  simpl. by rewrite ?append_assoc.
Qed.
End AjaxPaths.

(** ** A language for a type without language fields *)

Lemma starts_with_append (s t p : string) :
  starts_with s p → starts_with (s +:+ t) p.
Proof. intros [rest ->]. exists (rest +:+ t). by rewrite append_assoc. Qed.

(** X10: for a type that declares no languageFields, a get or a search with
    a language selects, after the fields, a column named undefined. *)
Theorem X10_undeclared_language_column (create : row → Instance)
    (c : Constructor) (id : Z) (field value language : string)
    (orderBy orderDirection : option string) (limitFrom limitTo : option Z) :
  languageFields c = None →
  language ≠ "" →
  starts_with (sql (get create c id (Some language)))
    ("SELECT " +:+ join "," (fields c) +:+ ",undefined FROM ")
  ∧ starts_with
      (sql (searchByField create c field value (Some language) orderBy
              orderDirection limitFrom limitTo))
      ("SELECT " +:+ join "," (fields c) +:+ ",undefined FROM ").
Proof.
  intros Hnone Hlang.
  assert (Ht : truthy (optStr (Some language)) = true).
  { simpl. by apply negb_true_iff, String.eqb_neq. }
  unfold get, searchByField. rewrite Ht, Hnone.
  cbn [fieldsToString]. split.
  - cbn [sql].
    exists (taxonomyName c +:+ "_language INNER JOIN " +:+ taxonomyName c
            +:+ " USING (id) WHERE id = ? AND language = ? LIMIT 1").
    by rewrite !append_assoc.
  - assert (Hq : starts_with
                   ("SELECT " +:+ join "," (fields c) +:+ "," +:+ "undefined"
                    +:+ " FROM " +:+ taxonomyName c
                    +:+ "_language INNER JOIN " +:+ taxonomyName c
                    +:+ " USING (id) WHERE ? = ? AND language = ?")
                   ("SELECT " +:+ join "," (fields c)
                    +:+ ",undefined FROM ")).
    { exists (taxonomyName c +:+ "_language INNER JOIN " +:+ taxonomyName c
              +:+ " USING (id) WHERE ? = ? AND language = ?").
      by rewrite !append_assoc. }
    destruct (truthy (optStr orderBy) && _); cbn [sql].
    + by do 2 apply starts_with_append.
    + by apply starts_with_append.
Qed.

(** ** The article and the tag *)

Lemma builtin_guard_newArticle : builtin_guard None newArticle.
Proof. reflexivity. Qed.

(** Creating an article from the row: the column [views] is dropped. *)
Lemma X1_create_keeps_shape_witness :
  builtin_guard None newArticle
  ∧ ∃ created,
      Main.create None newArticle articleRow = Returns created
      ∧ (own created).*1 = ["id"; "language"; "title"; "authorId"; "body"]
      ∧ inherited created = []
      ∧ ∀ k, hasOwnProperty created k = hasOwnProperty newArticle k.
Proof.
  split; [exact builtin_guard_newArticle |].
  exact (X1_create_keeps_shape None newArticle articleRow
           builtin_guard_newArticle).
Defined.

(** The created article has the title of the row. *)
Lemma X2_create_copies_known_witness :
  builtin_guard None newArticle
  ∧ ∃ created,
      Main.create None newArticle articleRow = Returns created
      ∧ member created "title" = VStr "X".
Proof.
  split; [exact builtin_guard_newArticle |].
  exact (X2_create_copies_known None newArticle articleRow "title"
           builtin_guard_newArticle).
Defined.

(** The title of the row reaches the base projection of the created
    article. *)
Lemma X3_create_then_data_witness :
  builtin_guard None newArticle
  ∧ "title" ∈ fields Article
  ∧ "title" ≠ "__proto__"
  ∧ hasOwnProperty newArticle "title" = true
  ∧ "title" ∈ forin_keys articleRow
  ∧ ∃ created,
      Main.create None newArticle articleRow = Returns created
      ∧ data (toInstance Article created) !! "title" = Some (VStr "X").
Proof.
  assert (H1 : "title" ∈ fields Article) by apply list_elem_of_here.
  assert (H2 : "title" ≠ "__proto__") by discriminate.
  assert (H3 : hasOwnProperty newArticle "title" = true) by reflexivity.
  assert (H4 : "title" ∈ forin_keys articleRow) by apply list_elem_of_here.
  split; [exact builtin_guard_newArticle |].
  split; [exact H1 |]. split; [exact H2 |]. split; [exact H3 |].
  split; [exact H4 |].
  exact (X3_create_then_data None Article newArticle articleRow "title"
           builtin_guard_newArticle H1 H2 H3 H4).
Defined.

Lemma plain_names_Article : plain_names Article.
Proof. by repeat split. Qed.

(** Removing the article: one placeholder, one bound value. *)
Lemma X8_delete_one_row_witness :
  placeholders (taxonomyName (constructor article_en)) = 0%nat
  ∧ placeholders (wsql (remove article_en)) = length (wvalues (remove article_en)).
Proof.
  split; [reflexivity |].
  exact (proj1 (proj2 (proj2 (X8_delete_one_row article_en eq_refl)))).
Defined.

(** Getting an article without language: one placeholder. *)
Lemma X9_get_placeholders_witness :
  plain_names Article
  ∧ placeholders (sql (get createArticle Article 1 None)) = 1%nat.
Proof.
  split; [exact plain_names_Article |].
  exact (proj2 (X9_get_placeholders createArticle Article 1 None
                  plain_names_Article)).
Defined.

(** Getting a tag in English selects the column undefined. *)
Lemma X10_undeclared_language_column_witness :
  languageFields Tag = None
  ∧ starts_with
      (sql (get (fun r => {| constructor := Tag; props := r |}) Tag 1
              (Some "en")))
      ("SELECT " +:+ join "," (fields Tag) +:+ ",undefined FROM ").
Proof.
  split; [reflexivity |].
  apply (X10_undeclared_language_column
           (fun r => {| constructor := Tag; props := r |}) Tag 1 "name" "x"
           "en" None None None None eq_refl).
  discriminate.
Defined.

(** The title is not a language field of the article: asking for it is
    asking for the languages alone. *)
Lemma X11_getOtherLanguages_name_witness :
  languageFields (constructor article_en) = Some ["body"]
  ∧ getOtherLanguages article_en (Some "title")
    = getOtherLanguages article_en None.
Proof.
  split; [reflexivity |].
  exact (X11_getOtherLanguages_name article_en ["body"] "title" eq_refl).
Defined.

(** Two searches of articles that differ in everything the text does not
    show. *)
Lemma X15_search_statement_fixed_witness :
  sql (searchByField createArticle Article "title" "X" (Some "en")
         (Some "title") (Some "asc") None (Some 10))
  = sql (searchByField createArticle Article "authorId" "7" (Some "fr")
           (Some "authorId") (Some "asc") (Some 20) None).
Proof.
  exact (X15_search_statement_fixed createArticle createArticle Article
           "title" "X" "authorId" "7" (Some "en") (Some "fr") (Some "title")
           (Some "authorId") (Some "asc") None (Some 10) (Some 20) None
           eq_refl eq_refl).
Defined.

(** An ordered search of articles in English: six placeholders. *)
Lemma X16_search_placeholders_witness :
  plain_names Article
  ∧ placeholders
      (sql (searchByField createArticle Article "title" "X" (Some "en")
              (Some "title") (Some "asc") None None)) = 6%nat.
Proof.
  split; [exact plain_names_Article |].
  exact (X16_search_placeholders createArticle Article "title" "X" (Some "en")
           (Some "title") (Some "asc") None None plain_names_Article).
Defined.
